(** * Event management of the maritime simulation: a shallow embedding

    This development embeds [mable/event_management.py] (the event taxonomy,
    the duration capability and the [EventQueue]) together with the two
    standard-library pieces the queue is built on ([heapq]'s sift procedures
    and [queue.PriorityQueue]'s [put]/[get]), and proves properties of them.

    Modelling conventions.
    - Times are Python numbers.  [Time] has the three special float values and
      integers for the finite ones: the code only compares times and, in
      [performed_time], subtracts two of them; rounding is outside the model.
    - Objects of classes declared outside this file ([Vessel], [Location],
      [Trade]) are immutable values with structural equality; a vessel's
      mutable part lives in the engine's store, indexed by the vessel's id.
    - Python methods that mutate [self] return the new [self].
    - A log call formats its message when it is made, whatever the level of
      the logger.  Log records keep the values a message shows, not its
      text.  Formatting an event calls [format_time], which can raise: the
      model follows this where the event formatted is one the caller hands
      in unchecked ([remove], [purge], and the info label of the
      announcement events), and takes the item that [put] has accepted,
      whose time is not +infinity, to be one that can be formatted. *)

From Stdlib Require Import ZArith Bool Lia ZifyNat.
From stdpp Require Import base tactics option list strings gmap sorting.

(** ** Times *)

Inductive Time :=
| NaN
| NInf
| Fin (z : Z)
| PInf.

#[global] Instance Time_eq_dec : EqDecision Time.
Proof. solve_decision. Defined.

(** Python's [a < b] on numbers. *)
Definition time_ltb (a b : Time) : bool :=
  match a, b with
  | NaN, _ | _, NaN => false
  | NInf, NInf => false
  | NInf, _ => true
  | Fin _, NInf => false
  | Fin x, Fin y => (x <? y)%Z
  | Fin _, PInf => true
  | PInf, _ => false
  end.

(** Python's [a == b] on numbers. *)
Definition time_eqb (a b : Time) : bool :=
  match a, b with
  | NInf, NInf | PInf, PInf => true
  | Fin x, Fin y => (x =? y)%Z
  | _, _ => false
  end.

Definition time_gtb (a b : Time) : bool := time_ltb b a.

Definition time_geb (a b : Time) : bool := time_ltb b a || time_eqb a b.

(** Python's [a - b] on numbers. *)
Definition time_sub (a b : Time) : Time :=
  match a, b with
  | NaN, _ | _, NaN => NaN
  | Fin x, Fin y => Fin (x - y)%Z
  | PInf, PInf | NInf, NInf => NaN
  | PInf, _ | _, NInf => PInf
  | NInf, _ | _, PInf => NInf
  end.


(** The order the queue relies on: [time_le a b] is "not [b < a]". *)
Definition time_le (a b : Time) : Prop := time_ltb b a = false.

Definition comparable (a : Time) : Prop := a ≠ NaN.

(** ** Collaborator values *)

Record Vessel := { vessel_id : nat; vessel_name : string }.

#[global] Instance Vessel_eq_dec : EqDecision Vessel.
Proof. solve_decision. Defined.

(** [mable.simulation_space.universe]: a named place, or the composite
    [OnJourney(origin, destination, start_time)]. *)
Inductive Location :=
| Port (name : string)
| OnJourney (origin destination : Location) (start_time : Time).

#[global] Instance Location_eq_dec : EqDecision Location.
Proof.
  intros x. induction x as [n|o IHo d IHd s]; intros [n'|o' d' s'];
    try (right; discriminate).
  - destruct (decide (n = n')) as [->|]; [left; reflexivity | right; congruence].
  - destruct (IHo o') as [->|]; [|right; congruence].
    destruct (IHd d') as [->|]; [|right; congruence].
    destruct (decide (s = s')) as [->|]; [left; reflexivity | right; congruence].
Defined.

(** [trade.time_window]: the four optional bounds, indexed 0 to 3 in the
    source (earliest and latest pickup, earliest and latest drop-off). *)
Record TimeWindow := {
  tw0 : option Time;
  tw1 : option Time;
  tw2 : option Time;
  tw3 : option Time
}.

#[global] Instance TimeWindow_eq_dec : EqDecision TimeWindow.
Proof. solve_decision. Defined.

Record Trade := {
  origin_port : Location;
  destination_port : Location;
  cargo_type : string;
  amount : Z;
  time_window : TimeWindow
}.

#[global] Instance Trade_eq_dec : EqDecision Trade.
Proof. solve_decision. Defined.

Record Company := { company_name : string }.

(** ** The event taxonomy *)

(** An event object: one constructor per concrete class, holding the
    attributes the class and its bases define.  [VesselEvent] and
    [VesselCargoEvent] are abstract and have no objects of their own. *)
Inductive Event :=
| E_Event (time : Time) (info : option string)
| E_FirstCargoAnnouncement (time : Time) (info : option string)
    (cargo_available_time_second_cargo : Time)
| E_CargoAnnouncement (time : Time) (info : option string)
    (cargo_available_time : Time)
| E_Cargo (time : Time) (info : option string)
| E_Duration (time : Time) (info : option string) (time_started : Time)
| E_VesselLocationInformation (time : Time) (info : option string)
    (time_started : Time) (vessel : Vessel) (location : Location)
| E_Travel (time : Time) (info : option string) (time_started : Time)
    (vessel : Vessel) (origin destination : Location) (is_laden : bool)
| E_Idle (time : Time) (info : option string) (time_started : Time)
    (vessel : Vessel) (location : Location)
| E_Arrival (time : Time) (info : option string) (time_started : Time)
    (vessel : Vessel) (trade : Trade) (is_pickup : bool)
| E_CargoTransfer (time : Time) (info : option string) (time_started : Time)
    (vessel : Vessel) (trade : Trade) (is_pickup : bool).

#[global] Instance Event_eq_dec : EqDecision Event.
Proof. solve_decision. Defined.

Inductive Class :=
| CEvent
| CFirstCargoAnnouncementEvent
| CCargoAnnouncementEvent
| CCargoEvent
| CDurationEvent
| CVesselEvent
| CVesselLocationInformationEvent
| CTravelEvent
| CIdleEvent
| CVesselCargoEvent
| CArrivalEvent
| CCargoTransferEvent.

#[global] Instance Class_eq_dec : EqDecision Class.
Proof. solve_decision. Defined.

Definition class_of (e : Event) : Class :=
  match e with
  | E_Event _ _ => CEvent
  | E_FirstCargoAnnouncement _ _ _ => CFirstCargoAnnouncementEvent
  | E_CargoAnnouncement _ _ _ => CCargoAnnouncementEvent
  | E_Cargo _ _ => CCargoEvent
  | E_Duration _ _ _ => CDurationEvent
  | E_VesselLocationInformation _ _ _ _ _ => CVesselLocationInformationEvent
  | E_Travel _ _ _ _ _ _ _ => CTravelEvent
  | E_Idle _ _ _ _ _ => CIdleEvent
  | E_Arrival _ _ _ _ _ _ => CArrivalEvent
  | E_CargoTransfer _ _ _ _ _ _ => CCargoTransferEvent
  end.

(** The base class named in each [class] statement. *)
Definition base (c : Class) : option Class :=
  match c with
  | CEvent => None
  | CFirstCargoAnnouncementEvent | CCargoAnnouncementEvent | CCargoEvent
  | CDurationEvent => Some CEvent
  | CVesselEvent => Some CDurationEvent
  | CVesselLocationInformationEvent | CTravelEvent | CIdleEvent
  | CVesselCargoEvent => Some CVesselEvent
  | CArrivalEvent | CCargoTransferEvent => Some CVesselCargoEvent
  end.

(** [issubclass(c, d)]; the hierarchy is five levels deep. *)
Fixpoint issubclass_up (depth : nat) (c d : Class) : bool :=
  bool_decide (c = d) ||
  match depth, base c with
  | S n, Some b => issubclass_up n b d
  | _, _ => false
  end.

Definition issubclass (c d : Class) : bool := issubclass_up 5 c d.

Definition isinstance (e : Event) (c : Class) : bool := issubclass (class_of e) c.

Definition time (e : Event) : Time :=
  match e with
  | E_Event t _ | E_FirstCargoAnnouncement t _ _ | E_CargoAnnouncement t _ _
  | E_Cargo t _ | E_Duration t _ _ | E_VesselLocationInformation t _ _ _ _
  | E_Travel t _ _ _ _ _ _ | E_Idle t _ _ _ _ | E_Arrival t _ _ _ _ _
  | E_CargoTransfer t _ _ _ _ _ => t
  end.

Definition info (e : Event) : option string :=
  match e with
  | E_Event _ i | E_FirstCargoAnnouncement _ i _ | E_CargoAnnouncement _ i _
  | E_Cargo _ i | E_Duration _ i _ | E_VesselLocationInformation _ i _ _ _
  | E_Travel _ i _ _ _ _ _ | E_Idle _ i _ _ _ | E_Arrival _ i _ _ _ _
  | E_CargoTransfer _ i _ _ _ _ => i
  end.

Definition set_info (i : option string) (e : Event) : Event :=
  match e with
  | E_Event t _ => E_Event t i
  | E_FirstCargoAnnouncement t _ c => E_FirstCargoAnnouncement t i c
  | E_CargoAnnouncement t _ c => E_CargoAnnouncement t i c
  | E_Cargo t _ => E_Cargo t i
  | E_Duration t _ s => E_Duration t i s
  | E_VesselLocationInformation t _ s v l => E_VesselLocationInformation t i s v l
  | E_Travel t _ s v o d b => E_Travel t i s v o d b
  | E_Idle t _ s v l => E_Idle t i s v l
  | E_Arrival t _ s v tr p => E_Arrival t i s v tr p
  | E_CargoTransfer t _ s v tr p => E_CargoTransfer t i s v tr p
  end.

(** [DurationEvent.time_started]; absent on the classes that are not
    duration events. *)
Definition time_started (e : Event) : option Time :=
  match e with
  | E_Event _ _ | E_FirstCargoAnnouncement _ _ _ | E_CargoAnnouncement _ _ _
  | E_Cargo _ _ => None
  | E_Duration _ _ s | E_VesselLocationInformation _ _ s _ _
  | E_Travel _ _ s _ _ _ _ | E_Idle _ _ s _ _ | E_Arrival _ _ s _ _ _
  | E_CargoTransfer _ _ s _ _ _ => Some s
  end.

Definition set_time_started (s : Time) (e : Event) : Event :=
  match e with
  | E_Duration t i _ => E_Duration t i s
  | E_VesselLocationInformation t i _ v l => E_VesselLocationInformation t i s v l
  | E_Travel t i _ v o d b => E_Travel t i s v o d b
  | E_Idle t i _ v l => E_Idle t i s v l
  | E_Arrival t i _ v tr p => E_Arrival t i s v tr p
  | E_CargoTransfer t i _ v tr p => E_CargoTransfer t i s v tr p
  | _ => e
  end.

(** [VesselEvent.vessel]. *)
Definition vessel (e : Event) : option Vessel :=
  match e with
  | E_VesselLocationInformation _ _ _ v _ | E_Travel _ _ _ v _ _ _
  | E_Idle _ _ _ v _ | E_Arrival _ _ _ v _ _ | E_CargoTransfer _ _ _ v _ _ => Some v
  | _ => None
  end.

(** [VesselCargoEvent.trade] and [VesselCargoEvent.is_pickup]. *)
Definition trade (e : Event) : option Trade :=
  match e with
  | E_Arrival _ _ _ _ tr _ | E_CargoTransfer _ _ _ _ tr _ => Some tr
  | _ => None
  end.

Definition is_pickup (e : Event) : option bool :=
  match e with
  | E_Arrival _ _ _ _ _ p | E_CargoTransfer _ _ _ _ _ p => Some p
  | _ => None
  end.

(** The [location] property of the vessel event classes. *)
Definition location (e : Event) : option Location :=
  match e with
  | E_VesselLocationInformation _ _ _ _ l | E_Idle _ _ _ _ l => Some l
  | E_Travel _ _ s _ o d _ => Some (OnJourney o d s)
  | E_Arrival _ _ _ _ tr p | E_CargoTransfer _ _ _ _ tr p =>
      Some (if p then origin_port tr else destination_port tr)
  | _ => None
  end.

(** [VesselCargoEvent.is_drop_off] *)
Definition is_drop_off (e : Event) : option bool := negb <$> is_pickup e.

(** ** Equality of events *)

Definition Event_eq (self other : Event) : bool :=
  isinstance other CEvent
  && time_eqb (time self) (time other)
  && bool_decide (info self = info other).

Definition VesselEvent_eq (self other : Event) : bool :=
  isinstance other CVesselEvent
  && Event_eq self other
  && bool_decide (vessel self = vessel other).

Definition IdleEvent_eq (self other : Event) : bool :=
  isinstance other CIdleEvent
  && VesselEvent_eq self other
  && bool_decide (location self = location other).

Definition VesselCargoEvent_eq (self other : Event) : bool :=
  isinstance other CVesselCargoEvent
  && time_eqb (time self) (time other)
  && bool_decide (is_pickup self = is_pickup other)
  && bool_decide (trade self = trade other).

Definition ArrivalEvent_eq (self other : Event) : bool :=
  VesselCargoEvent_eq self other && isinstance other CArrivalEvent.

Definition CargoTransferEvent_eq (self other : Event) : bool :=
  VesselCargoEvent_eq self other && isinstance other CCargoTransferEvent.

(** The [__eq__] a class defines or inherits. *)
Definition eq_method (c : Class) : Event -> Event -> bool :=
  match c with
  | CEvent | CFirstCargoAnnouncementEvent | CCargoAnnouncementEvent
  | CCargoEvent | CDurationEvent => Event_eq
  | CVesselEvent | CVesselLocationInformationEvent | CTravelEvent => VesselEvent_eq
  | CIdleEvent => IdleEvent_eq
  | CVesselCargoEvent => VesselCargoEvent_eq
  | CArrivalEvent => ArrivalEvent_eq
  | CCargoTransferEvent => CargoTransferEvent_eq
  end.

(** Python's [a == b]: the right operand's method goes first when its class
    is a proper subclass of the left operand's; no [__eq__] here returns
    [NotImplemented], so the first method called decides. *)
Definition event_eqb (a b : Event) : bool :=
  if negb (bool_decide (class_of a = class_of b))
     && issubclass (class_of b) (class_of a)
  then eq_method (class_of b) b a
  else eq_method (class_of a) a b.

(** ** Constructors *)

(** String conversions the f-strings of the constructors and actions call;
    they belong to classes and helpers declared outside this file. *)
Record Formats := {
  str_location : Location -> string;
  location_name : Location -> string;
  str_amount : Z -> string;
  str_len : nat -> string;
  str_time : Time -> string;
  format_time : Time -> string
}.

(** The start time of an unstarted duration event. *)
Definition unstarted : Time := Fin (-1).

Definition new_Event (time : Time) (info : option string) : Event :=
  E_Event time info.

Definition FirstCargoAnnouncementEvent (time cargo_available_time_second_cargo : Time)
  : Event :=
  E_FirstCargoAnnouncement time None cargo_available_time_second_cargo.


Definition CargoEvent (time : Time) : Event := E_Cargo time None.

Definition DurationEvent (time : Time) : Event := E_Duration time None unstarted.

Section Constructors.
Variable fmt : Formats.
Variable find_company_for_vessel : Vessel -> Company.

Definition VesselLocationInformationEvent (time : Time) (vessel : Vessel)
    (location : Location) : Event :=
  E_VesselLocationInformation time
    (Some (company_name (find_company_for_vessel vessel) +:+ "'s "
           +:+ vessel_name vessel +:+ " in " +:+ location_name fmt location))
    unstarted vessel location.

Definition TravelEvent (time : Time) (vessel : Vessel)
    (origin destination : Location) : Event :=
  E_Travel time
    (Some (str_location fmt destination +:+ " travel (Vessel [name: "
           +:+ vessel_name vessel +:+ "]: " +:+ str_location fmt origin
           +:+ "->" +:+ str_location fmt destination +:+ ")"))
    unstarted vessel origin destination false.

Definition IdleEvent (time : Time) (vessel : Vessel) (location : Location)
  : Event :=
  E_Idle time
    (Some (str_location fmt location +:+ " idling (Vessel [name: "
           +:+ vessel_name vessel +:+ "])"))
    unstarted vessel location.

Definition VesselCargoEvent_info (vessel : Vessel) (trade : Trade)
    (is_pickup : bool) : string :=
  if is_pickup then
    str_location fmt (origin_port trade) +:+ " pick up (Vessel [name: "
    +:+ vessel_name vessel +:+ "], Trade [" +:+ cargo_type trade +:+ ", "
    +:+ str_amount fmt (amount trade) +:+ "]: "
    +:+ str_location fmt (origin_port trade) +:+ "->"
    +:+ str_location fmt (destination_port trade) +:+ ")"
  else
    str_location fmt (destination_port trade) +:+ " drop off (Vessel [name: "
    +:+ vessel_name vessel +:+ "], Trade [" +:+ cargo_type trade +:+ ", "
    +:+ str_amount fmt (amount trade) +:+ "]: "
    +:+ str_location fmt (origin_port trade) +:+ "->"
    +:+ str_location fmt (destination_port trade) +:+ ")".

Definition ArrivalEvent (time : Time) (vessel : Vessel) (trade : Trade)
    (is_pickup : bool) : Event :=
  E_Arrival time (Some (VesselCargoEvent_info vessel trade is_pickup))
    unstarted vessel trade is_pickup.

Definition CargoTransferEvent (time : Time) (vessel : Vessel) (trade : Trade)
    (is_pickup : bool) : Event :=
  E_CargoTransfer time (Some (VesselCargoEvent_info vessel trade is_pickup))
    unstarted vessel trade is_pickup.
End Constructors.

(** ** The duration capability *)

(** [DurationEvent.added_to_queue], given [engine.world.current_time]. *)
Definition DurationEvent_added_to_queue (current_time : Time) (self : Event) : Event :=
  if time_ltb (time self) current_time
  then set_time_started (time self) self
  else set_time_started current_time self.

(** [DurationEvent.has_started] and [DurationEvent.performed_time]: [None] on
    an object whose class does not define them. *)
Definition has_started (self : Event) : option bool :=
  s ← time_started self; Some (time_geb s (Fin 0)).

Definition performed_time (self : Event) : option Time :=
  s ← time_started self;
  started ← has_started self;
  Some (if started : bool then time_sub (time self) s else Fin 0).

(** ** [heapq]: the binary heap under [queue.PriorityQueue]

    The heap is a Python list used as an array.  A result of [None] stands
    for an [IndexError] (or for a loop that used up its fuel); the lemmas
    below show that neither happens on the calls the queue makes. *)

Section Heapq.
Context {A : Type}.
Variable lt : A -> A -> bool.

(** [heap[i] = x]; an index out of range raises. *)
Definition list_set (heap : list A) (i : nat) (x : A) : option (list A) :=
  if decide (i < length heap) then Some (<[i := x]> heap) else None.

(** [heap.pop()]: the last element and the list without it. *)
Definition list_pop (heap : list A) : option (A * list A) :=
  lastelt ← last heap; Some (lastelt, take (length heap - 1) heap).

(** The loop of [_siftdown]: returns the heap and the final [pos];
    [(pos - 1) / 2] is the source's [(pos - 1) >> 1]. *)
Fixpoint siftdown_loop (fuel : nat) (heap : list A) (startpos pos : nat)
    (newitem : A) : option (list A * nat) :=
  match fuel with
  | O => None
  | S fuel =>
      if (startpos <? pos) then
        let parentpos := (pos - 1) / 2 in
        parent ← heap !! parentpos;
        if lt newitem parent then
          heap ← list_set heap pos parent;
          siftdown_loop fuel heap startpos parentpos newitem
        else Some (heap, pos)
      else Some (heap, pos)
  end.

Definition siftdown (heap : list A) (startpos pos : nat) : option (list A) :=
  newitem ← heap !! pos;
  r ← siftdown_loop (S pos) heap startpos pos newitem;
  list_set r.1 r.2 newitem.

(** The loop of [_siftup]; [childpos] is [2*pos + 1] at every test of the
    loop condition, so only [pos] is threaded. *)
Fixpoint siftup_loop (fuel : nat) (heap : list A) (endpos pos : nat)
    : option (list A * nat) :=
  match fuel with
  | O => None
  | S fuel =>
      let childpos := (2 * pos + 1) in
      if (childpos <? endpos) then
        let rightpos := (childpos + 1) in
        left ← heap !! childpos;
        childpos ←
          (if (rightpos <? endpos) then
             right ← heap !! rightpos;
             Some (if negb (lt left right) then rightpos else childpos)
           else Some childpos);
        child ← heap !! childpos;
        heap ← list_set heap pos child;
        siftup_loop fuel heap endpos childpos
      else Some (heap, pos)
  end.

Definition siftup (heap : list A) (pos : nat) : option (list A) :=
  let endpos := length heap in
  let startpos := pos in
  newitem ← heap !! pos;
  r ← siftup_loop (S endpos) heap endpos pos;
  heap ← list_set r.1 r.2 newitem;
  siftdown heap startpos r.2.

Definition heappush (heap : list A) (item : A) : option (list A) :=
  let heap := heap ++ [item] in
  siftdown heap 0 (length heap - 1).

Definition heappop (heap : list A) : option (A * list A) :=
  r ← list_pop heap;
  let lastelt := r.1 in
  let heap := r.2 in
  match heap with
  | [] => Some (lastelt, heap)
  | _ :: _ =>
      returnitem ← heap !! 0;
      heap ← list_set heap 0 lastelt;
      heap ← siftup heap 0;
      Some (returnitem, heap)
  end.
End Heapq.

(** ** [EventItem] and the engine *)

(** [@dataclass(order=True)] with [event: field(compare=False)]: the generated
    [__eq__] and [__lt__] compare the [time] field only, with [==] and [<]
    of numbers (the [__eq__] that Python generates since 3.13 compares field
    by field; the older one compares tuples, which differs on a NaN only). *)
Record EventItem := { EventItem_time : Time; EventItem_event : Event }.

Definition EventItem_lt (a b : EventItem) : bool :=
  time_ltb (EventItem_time a) (EventItem_time b).

Definition EventItem_eq (a b : EventItem) : bool :=
  time_eqb (EventItem_time a) (EventItem_time b).

(** What [market.distribute_trades] returns; its content is the market's. *)
Definition Distribution : Type := list (Company * list Trade).

(** Calls the kernel makes on its collaborators (section 6 of the
    specification); the engine records them in the order they are made. *)
Inductive Call :=
| shipping_get_trades (time : Time)
| market_inform_future_trades (trades : list Trade) (time : Time)
    (companies : list Company)
| market_distribute_trades (time : Time) (trades : list Trade)
    (companies : list Company)
| headquarters_get_companies
| vessel_event_occurrence (vessel : Vessel) (event : Event)
| vessel_load_cargo (vessel : Vessel) (cargo_type : string) (amount : Z)
| vessel_unload_cargo (vessel : Vessel) (cargo_type : string) (amount : Z)
| vessel_has_any_load (vessel : Vessel).

Inductive Level := DEBUG | WARNING | ERROR.

(** The messages this module logs, with the values its f-strings format. *)
Inductive Message :=
| Added_event_to_queue (event_item : EventItem)
| Removed_event_from_queue (event_to_remove : EventItem)
| Tried_to_remove_event_which_is_not_in_the_queue (event_to_remove : EventItem)
| loading_before_earliest_start (company : string) (time bound : Time)
| loading_after_latest_finish (company : string) (time bound : Time)
| unloading_before_earliest_start (company : string) (time bound : Time)
| unloading_after_latest_finish (company : string) (time bound : Time).

Record LogRecord := { level : Level; message : Message }.

(** ** Outcomes of a call *)

Inductive Exception :=
| ValueError (message : string)
| ValueError_event (event : Event)
| OverflowError
| Empty
| IndexError.

(** A call returns, raises, or blocks: [Blocks] is a thread waiting on the
    queue's condition variable with nobody to wake it. *)
Inductive Result (A : Type) :=
| Returns (a : A)
| Raises (e : Exception)
| Blocks.

Arguments Returns {A} a.
Arguments Raises {A} e.
Arguments Blocks {A}.

(** ** The engine *)

(** The simulation engine as this module sees it: the world's clock and
    queue, the [location] attribute of every vessel, the collaborators'
    answers, and the calls and log records produced so far.

    Two helpers declared outside this file can fail, and the engine says
    when.  [format_time_raises t] is the exception that
    [mable.util.format_time(t)] raises, [None] when it returns (the string
    it then returns is [format_time] of [Formats]).  [not_empty_wait t] is
    what [self.not_empty.wait(t)] of the queue's condition variable does
    while no item arrives: it returns when the timeout has passed, raises
    for a timeout it cannot represent, or never returns. *)
Record Engine := {
  current_time : Time;
  queue : list EventItem;
  vessel_location : gmap nat Location;
  calls : list Call;
  log : list LogRecord;
  shipping_companies : list Company;
  get_trades : Time -> list Trade;
  distribute_trades : Time -> list Trade -> list Company -> Distribution;
  generate_event_cargo : Time -> Event;
  find_company_for_vessel : Vessel -> Company;
  has_any_load : list Call -> Vessel -> bool;
  get_distance : Location -> Location -> Z;
  format_time_raises : Time -> option Exception;
  not_empty_wait : Time -> Result unit
}.

Definition set_queue (q : list EventItem) (eng : Engine) : Engine :=
  {| current_time := current_time eng; queue := q;
     vessel_location := vessel_location eng; calls := calls eng;
     log := log eng; shipping_companies := shipping_companies eng;
     get_trades := get_trades eng; distribute_trades := distribute_trades eng;
     generate_event_cargo := generate_event_cargo eng;
     find_company_for_vessel := find_company_for_vessel eng;
     has_any_load := has_any_load eng; get_distance := get_distance eng;
     format_time_raises := format_time_raises eng;
     not_empty_wait := not_empty_wait eng |}.

(** [vessel.location = l] *)
Definition set_vessel_location (v : Vessel) (l : Location) (eng : Engine) : Engine :=
  {| current_time := current_time eng; queue := queue eng;
     vessel_location := <[vessel_id v := l]> (vessel_location eng);
     calls := calls eng;
     log := log eng; shipping_companies := shipping_companies eng;
     get_trades := get_trades eng; distribute_trades := distribute_trades eng;
     generate_event_cargo := generate_event_cargo eng;
     find_company_for_vessel := find_company_for_vessel eng;
     has_any_load := has_any_load eng; get_distance := get_distance eng;
     format_time_raises := format_time_raises eng;
     not_empty_wait := not_empty_wait eng |}.

Definition add_call (c : Call) (eng : Engine) : Engine :=
  {| current_time := current_time eng; queue := queue eng;
     vessel_location := vessel_location eng; calls := calls eng ++ [c];
     log := log eng; shipping_companies := shipping_companies eng;
     get_trades := get_trades eng; distribute_trades := distribute_trades eng;
     generate_event_cargo := generate_event_cargo eng;
     find_company_for_vessel := find_company_for_vessel eng;
     has_any_load := has_any_load eng; get_distance := get_distance eng;
     format_time_raises := format_time_raises eng;
     not_empty_wait := not_empty_wait eng |}.

Definition add_log (l : Level) (m : Message) (eng : Engine) : Engine :=
  {| current_time := current_time eng; queue := queue eng;
     vessel_location := vessel_location eng; calls := calls eng;
     log := log eng ++ [{| level := l; message := m |}];
     shipping_companies := shipping_companies eng;
     get_trades := get_trades eng; distribute_trades := distribute_trades eng;
     generate_event_cargo := generate_event_cargo eng;
     find_company_for_vessel := find_company_for_vessel eng;
     has_any_load := has_any_load eng; get_distance := get_distance eng;
     format_time_raises := format_time_raises eng;
     not_empty_wait := not_empty_wait eng |}.

(** ** Formatting an event for a log message *)

(** [Event.__repr__] and [DurationEvent.__repr__], which the f-string of a
    log message calls on the event of the item it formats, whatever the
    level of the logger: the exception raised, [None] when a string is
    produced.  [round(x, 3)] returns for every float; [format_time] is
    called on the event's time and then, for a duration event, on its
    [performed_time()]. *)
Definition repr_raises (eng : Engine) (self : Event) : option Exception :=
  match format_time_raises eng (time self) with
  | Some x => Some x
  | None =>
      match performed_time self with
      | Some performed => format_time_raises eng performed
      | None => None
      end
  end.

(** ** The hooks run on insertion *)

(** [TravelEvent.added_to_queue] *)
Definition TravelEvent_added_to_queue (self : Event) (eng : Engine) : Event * Engine :=
  let self := DurationEvent_added_to_queue (current_time eng) self in
  match self with
  | E_Travel _ _ time_started vessel origin destination _ =>
      (self, set_vessel_location vessel (OnJourney origin destination time_started) eng)
  | _ => (self, eng)
  end.

(** [event.added_to_queue(engine)], by the class of [event]. *)
Definition added_to_queue (self : Event) (eng : Engine) : Event * Engine :=
  match class_of self with
  | CEvent | CFirstCargoAnnouncementEvent | CCargoAnnouncementEvent
  | CCargoEvent => (self, eng)
  | CTravelEvent => TravelEvent_added_to_queue self eng
  | _ => (DurationEvent_added_to_queue (current_time eng) self, eng)
  end.

(** ** [EventQueue] *)

(** [PriorityQueue.put] on a queue of unbounded size ([EventQueue()] passes
    no [maxsize]): never waits, whatever [block] and [timeout] are. *)
Definition PriorityQueue_put (queue : list EventItem) (item : EventItem)
    (block : bool) (timeout : option Time) : option (list EventItem) :=
  heappush EventItem_lt queue item.

(** [PriorityQueue.get].  With [block] false an empty queue raises [Empty]
    at once; with [block] true and no [timeout] the caller waits until an
    item is available; a negative [timeout] is a [ValueError]; with any
    other [timeout] and an empty queue, [Empty] is raised at once if no
    time remains ([remaining <= 0.0]), and otherwise the caller waits on
    the condition variable for the remaining time, [wait], and raises
    [Empty] when that returns with the queue still empty. *)
Definition PriorityQueue_get (queue : list EventItem) (wait : Time -> Result unit)
    (block : bool) (timeout : option Time) : Result (EventItem * list EventItem) :=
  let item :=
    match heappop EventItem_lt queue with
    | Some r => Returns r
    | None => Raises IndexError
    end in
  let empty := bool_decide (queue = []) in
  if negb block then
    if empty then Raises Empty else item
  else
    match timeout with
    | None => if empty then Blocks else item
    | Some t =>
        if time_ltb t (Fin 0)
        then Raises (ValueError "'timeout' must be a non-negative number")
        else if empty then
          if time_geb (Fin 0) t then Raises Empty
          else match wait t with
               | Returns _ => Raises Empty
               | Raises e => Raises e
               | Blocks => Blocks
               end
        else item
    end.

(** [EventQueue.put] *)
Definition put (event : Event) (block : bool) (timeout : option Time)
    (eng : Engine) : Result unit * (Event * Engine) :=
  if time_eqb (time event) PInf then
    (Raises (ValueError "Event with infinite deadline."), (event, eng))
  else
    let '(event, eng) := added_to_queue event eng in
    let event_item := {| EventItem_time := time event; EventItem_event := event |} in
    let eng := add_log DEBUG (Added_event_to_queue event_item) eng in
    match PriorityQueue_put (queue eng) event_item block timeout with
    | Some q => (Returns tt, (event, set_queue q eng))
    | None => (Raises IndexError, (event, eng))
    end.

(** [EventQueue.get] *)
Definition get (block : bool) (timeout : option Time) (eng : Engine)
    : Result Event * Engine :=
  match PriorityQueue_get (queue eng) (not_empty_wait eng) block timeout with
  | Returns (event_item, q) => (Returns (EventItem_event event_item), set_queue q eng)
  | Raises e => (Raises e, eng)
  | Blocks => (Blocks, eng)
  end.

(** [list.remove(value)]: deletes the first item with [item == value];
    [None] stands for the [ValueError] raised when there is none. *)
Fixpoint list_remove {A : Type} (eq : A -> A -> bool) (l : list A) (value : A)
    : option (list A) :=
  match l with
  | [] => None
  | item :: l' =>
      if eq item value then Some l'
      else l'' ← list_remove eq l' value; Some (item :: l'')
  end.

(** The body of the [for] loop of [EventQueue.remove].  The message of
    either log call is formatted after [list.remove] was tried: when the
    formatting raises, the exception leaves the loop with nothing logged,
    and an item that [list.remove] found is gone all the same.  (A
    [ValueError] raised while the debug message is formatted is caught by
    the [except] clause, whose warning message then raises it again.) *)
Definition remove_one (one_event : Event) (eng : Engine) : Result unit * Engine :=
  let event_to_remove :=
    {| EventItem_time := time one_event; EventItem_event := one_event |} in
  match list_remove EventItem_eq (queue eng) event_to_remove with
  | Some q =>
      let eng := set_queue q eng in
      match repr_raises eng one_event with
      | Some x => (Raises x, eng)
      | None => (Returns tt, add_log DEBUG (Removed_event_from_queue event_to_remove) eng)
      end
  | None =>
      match repr_raises eng one_event with
      | Some x => (Raises x, eng)
      | None =>
          (Returns tt,
           add_log WARNING
             (Tried_to_remove_event_which_is_not_in_the_queue event_to_remove) eng)
      end
  end.

(** [for one_event in event_s: ...], left at the first exception. *)
Fixpoint remove_each (event_s : list Event) (eng : Engine) : Result unit * Engine :=
  match event_s with
  | [] => (Returns tt, eng)
  | one_event :: event_s =>
      match remove_one one_event eng with
      | (Returns _, eng) => remove_each event_s eng
      | r => r
      end
  end.

(** [EventQueue.remove]: the argument is one event or a list of events. *)
Definition remove (event_s : Event + list Event) (eng : Engine) : Result unit * Engine :=
  let event_s := match event_s with inl e => [e] | inr l => l end in
  remove_each event_s eng.

(** [EventQueue.purge] *)
Definition purge (v : Vessel) (eng : Engine) : Result unit * Engine :=
  let vessels_events :=
    omap (fun event_item =>
            let event := EventItem_event event_item in
            if isinstance event CVesselEvent
            then if bool_decide (vessel event = Some v) then Some event else None
            else None)
         (queue eng) in
  remove (inr vessels_events) eng.

(** [EventQueue.__contains__] *)
Definition contains (event : Event) (eng : Engine) : bool :=
  let event_item := {| EventItem_time := time event; EventItem_event := event |} in
  existsb (fun current_event_item => EventItem_eq event_item current_event_item)
          (queue eng).

(** [EventQueue.__getitem__] *)
Definition getitem (event : Event) (eng : Engine) : Result Event :=
  let event_item := {| EventItem_time := time event; EventItem_event := event |} in
  match find (fun current_event_item => EventItem_eq event_item current_event_item)
             (queue eng) with
  | Some current_event_item => Returns (EventItem_event current_event_item)
  | None => Raises (ValueError_event event)
  end.

(** ** Distances *)

(** The [distance] method of the vessel event classes. *)
Definition distance (self : Event) (eng : Engine) : option Z :=
  match self with
  | E_VesselLocationInformation _ _ _ _ _ | E_Idle _ _ _ _ _
  | E_CargoTransfer _ _ _ _ _ _ => Some 0%Z
  | E_Travel _ _ _ _ origin destination _ =>
      Some (get_distance eng origin destination)
  | E_Arrival _ _ _ _ tr _ =>
      Some (get_distance eng (origin_port tr) (destination_port tr))
  | _ => None
  end.

(** ** Execution of events *)

(** What [event_action] returns: [None], or the market's distribution. *)
Inductive ActionData :=
| NoData
| DistributionInfo (d : Distribution).

(** [VesselEvent.event_action] *)
Definition VesselEvent_event_action (self : Event) (eng : Engine) : Engine :=
  match vessel self, location self with
  | Some v, Some l =>
      let eng := add_call (vessel_event_occurrence v self) eng in
      set_vessel_location v l eng
  | _, _ => eng
  end.

(** [TravelEvent.event_action] *)
Definition TravelEvent_event_action (self : Event) (eng : Engine) : Event * Engine :=
  let eng := VesselEvent_event_action self eng in
  match self with
  | E_Travel t i s v origin destination _ =>
      let laden := has_any_load eng (calls eng) v in
      let eng := add_call (vessel_has_any_load v) eng in
      (E_Travel t i s v origin destination laden,
       set_vessel_location v destination eng)
  | _ => (self, eng)
  end.

(** [bound is not None and time < bound], and the same with [>]; the result
    carries the bound for the message. *)
Definition before_bound (t : Time) (bound : option Time) : option Time :=
  match bound with
  | Some b => if time_ltb t b then Some b else None
  | None => None
  end.

Definition after_bound (t : Time) (bound : option Time) : option Time :=
  match bound with
  | Some b => if time_gtb t b then Some b else None
  | None => None
  end.

(** [ArrivalEvent.event_action] *)
Definition ArrivalEvent_event_action (self : Event) (eng : Engine) : Engine :=
  let eng := VesselEvent_event_action self eng in
  match self with
  | E_Arrival t _ _ v tr p =>
      let company := company_name (find_company_for_vessel eng v) in
      let tw := time_window tr in
      if p then
        match before_bound t (tw0 tw) with
        | Some b => add_log ERROR (loading_before_earliest_start company t b) eng
        | None =>
            match after_bound t (tw1 tw) with
            | Some b => add_log ERROR (loading_after_latest_finish company t b) eng
            | None => eng
            end
        end
      else
        match before_bound t (tw2 tw) with
        | Some b => add_log ERROR (unloading_before_earliest_start company t b) eng
        | None =>
            match after_bound t (tw3 tw) with
            | Some b => add_log ERROR (unloading_after_latest_finish company t b) eng
            | None => eng
            end
        end
  | _ => eng
  end.

(** [CargoTransferEvent.event_action] *)
Definition CargoTransferEvent_event_action (self : Event) (eng : Engine) : Engine :=
  let eng := VesselEvent_event_action self eng in
  match self with
  | E_CargoTransfer _ _ _ v tr p =>
      if p then add_call (vessel_load_cargo v (cargo_type tr) (amount tr)) eng
      else add_call (vessel_unload_cargo v (cargo_type tr) (amount tr)) eng
  | _ => eng
  end.

Section Actions.
Variable fmt : Formats.

(** [CargoEvent.event_action] *)
Definition CargoEvent_event_action (self : Event) (eng : Engine)
    : ActionData * (Event * Engine) :=
  let all_trades := get_trades eng (time self) in
  let eng := add_call (shipping_get_trades (time self)) eng in
  let self := set_info (Some ("#Trades: " +:+ str_len fmt (length all_trades))) self in
  let eng := add_call headquarters_get_companies eng in
  let distribution_info :=
    distribute_trades eng (time self) all_trades (shipping_companies eng) in
  let eng := add_call (market_distribute_trades (time self) all_trades
                         (shipping_companies eng)) eng in
  (DistributionInfo distribution_info, (self, eng)).

(** [CargoAnnouncementEvent.event_action] *)
Definition CargoAnnouncementEvent_event_action (self : Event)
    (cargo_available_time : Time) (eng : Engine)
    : Result ActionData * (Event * Engine) :=
  let all_trades := get_trades eng cargo_available_time in
  let eng := add_call (shipping_get_trades cargo_available_time) eng in
  let eng := add_call (market_inform_future_trades all_trades cargo_available_time
                         (shipping_companies eng)) eng in
  match format_time_raises eng cargo_available_time with
  | Some x => (Raises x, (self, eng))
  | None =>
      let self := set_info (Some ("#Trades: " +:+ str_len fmt (length all_trades)
                                  +:+ ". For time "
                                  +:+ format_time fmt cargo_available_time)) self in
      match put (generate_event_cargo eng cargo_available_time) true None eng with
      | (Returns _, (_, eng)) => (Returns NoData, (self, eng))
      | (Raises e, (_, eng)) => (Raises e, (self, eng))
      | (Blocks, (_, eng)) => (Blocks, (self, eng))
      end
  end.

(** [FirstCargoAnnouncementEvent.event_action] *)
Definition FirstCargoAnnouncementEvent_event_action (self : Event)
    (cargo_available_time_second_cargo : Time) (eng : Engine)
    : Result ActionData * (Event * Engine) :=
  let all_trades_later := get_trades eng cargo_available_time_second_cargo in
  let eng := add_call (shipping_get_trades cargo_available_time_second_cargo) eng in
  let eng := add_call (market_inform_future_trades all_trades_later
                         cargo_available_time_second_cargo
                         (shipping_companies eng)) eng in
  match format_time_raises eng cargo_available_time_second_cargo with
  | Some x => (Raises x, (self, eng))
  | None =>
      let self := set_info (Some ("#Trades: " +:+ str_len fmt (length all_trades_later)
                                  +:+ ". For time "
                                  +:+ format_time fmt cargo_available_time_second_cargo))
                    self in
      match put (generate_event_cargo eng (Fin 0)) true None eng with
      | (Returns _, (_, eng)) =>
          match put (generate_event_cargo eng cargo_available_time_second_cargo)
                    true None eng with
          | (Returns _, (_, eng)) => (Returns NoData, (self, eng))
          | (Raises e, (_, eng)) => (Raises e, (self, eng))
          | (Blocks, (_, eng)) => (Blocks, (self, eng))
          end
      | (Raises e, (_, eng)) => (Raises e, (self, eng))
      | (Blocks, (_, eng)) => (Blocks, (self, eng))
      end
  end.

(** [event.event_action(engine)], by the class of [event]. *)
Definition event_action (self : Event) (eng : Engine)
    : Result ActionData * (Event * Engine) :=
  match self with
  | E_Event _ _ | E_Duration _ _ _ => (Returns NoData, (self, eng))
  | E_FirstCargoAnnouncement _ _ t2 =>
      FirstCargoAnnouncementEvent_event_action self t2 eng
  | E_CargoAnnouncement _ _ t' =>
      CargoAnnouncementEvent_event_action self t' eng
  | E_Cargo _ _ =>
      let '(d, s) := CargoEvent_event_action self eng in (Returns d, s)
  | E_VesselLocationInformation _ _ _ _ _ | E_Idle _ _ _ _ _ =>
      (Returns NoData, (self, VesselEvent_event_action self eng))
  | E_Travel _ _ _ _ _ _ _ =>
      (Returns NoData, TravelEvent_event_action self eng)
  | E_Arrival _ _ _ _ _ _ =>
      (Returns NoData, (self, ArrivalEvent_event_action self eng))
  | E_CargoTransfer _ _ _ _ _ _ =>
      (Returns NoData, (self, CargoTransferEvent_event_action self eng))
  end.
End Actions.

(** ** Driving the queue *)

(** [for e in events: queue.put(e)], stopping at the first exception. *)
Fixpoint put_each (events : list Event) (eng : Engine) : Result unit * Engine :=
  match events with
  | [] => (Returns tt, eng)
  | e :: events =>
      match put e true None eng with
      | (Returns _, (_, eng)) => put_each events eng
      | (Raises x, (_, eng)) => (Raises x, eng)
      | (Blocks, (_, eng)) => (Blocks, eng)
      end
  end.


(** A [format_time] that formats the finite times and fails on the others
    the way a conversion to an integer does. *)
Definition finite_times_only (t : Time) : option Exception :=
  match t with
  | Fin _ => None
  | NaN => Some (ValueError "cannot convert float NaN to integer")
  | _ => Some OverflowError
  end.

(** A wait that sits out a finite timeout and rejects the others. *)
Definition finite_waits_only (t : Time) : Result unit :=
  match t with
  | Fin _ => Returns tt
  | NaN => Raises (ValueError "Invalid value NaN (not a number)")
  | _ => Raises OverflowError
  end.

(** An engine whose clock shows [now], with an empty queue, no trades, a
    class factory that builds [CargoEvent]s, and helpers that work on the
    finite times. *)
Definition engine_at (now : Time) : Engine :=
  {| current_time := now; queue := []; vessel_location := ∅; calls := [];
     log := []; shipping_companies := [];
     get_trades := fun _ => [];
     distribute_trades := fun _ _ _ => [];
     generate_event_cargo := CargoEvent;
     find_company_for_vessel := fun v => {| company_name := "company" |};
     has_any_load := fun _ _ => false;
     get_distance := fun _ _ => 0%Z;
     format_time_raises := finite_times_only;
     not_empty_wait := finite_waits_only |}.

Definition initial_engine : Engine := engine_at (Fin 0).

(** * Specification vocabulary *)

(** ** Heap order *)

Section HeapOrder.
Context {A : Type}.
Variable lt : A -> A -> bool.

Definition heap_le (a b : A) : Prop := lt b a = false.

Definition parent (i : nat) : nat := (i - 1) / 2.

(** The heap invariant of [heapq]: [heap[(i-1)>>1] <= heap[i]] for [i > 0]. *)
Definition is_heap (h : list A) : Prop :=
  forall i x p, 0 < i -> h !! i = Some x -> h !! parent i = Some p -> heap_le p x.

(** A heap with a hole at [pos]: the entry at [pos] is ignored, and the
    children of [pos] are above the parent of [pos]. *)
Definition hole_inv (h : list A) (pos : nat) : Prop :=
  pos < length h
  /\ (forall i x p, 0 < i -> i <> pos -> parent i <> pos ->
        h !! i = Some x -> h !! parent i = Some p -> heap_le p x)
  /\ (forall c x g, 0 < pos -> 0 < c -> parent c = pos ->
        h !! c = Some x -> h !! parent pos = Some g -> heap_le g x).

Definition above_children (h : list A) (pos : nat) (newitem : A) : Prop :=
  forall c x, 0 < c -> parent c = pos -> h !! c = Some x -> heap_le newitem x.

End HeapOrder.

(** ** Predicates on the queue, events and messages *)

(** Every item is keyed by its event's time, no time is NaN, and the list is
    heap-ordered. *)
Definition keyed (it : EventItem) : Prop :=
  EventItem_time it = time (EventItem_event it).

Definition item_ok (it : EventItem) : Prop := comparable (EventItem_time it).

Definition wf_queue (q : list EventItem) : Prop :=
  is_heap EventItem_lt q /\ Forall item_ok q /\ Forall keyed q.

(** The item [put] builds for an event. *)
Definition item_of (eng : Engine) (e : Event) : EventItem :=
  {| EventItem_time := time (added_to_queue e eng).1;
     EventItem_event := (added_to_queue e eng).1 |}.


Definition insertable (e : Event) : Prop := comparable (time e) /\ time e <> PInf.

(** The attributes, besides the time, that the [__eq__] of an event's class
    compares: the info label for the classes that use [Event.__eq__], with
    the vessel for those that use [VesselEvent.__eq__], and the location for
    [IdleEvent]; the pickup flag and the trade (and neither the info label
    nor the vessel) for the two [VesselCargoEvent] classes. *)
Definition compared (e : Event)
  : option (option string) * option Vessel * option Location * option (bool * Trade) :=
  match e with
  | E_Event _ i | E_FirstCargoAnnouncement _ i _ | E_CargoAnnouncement _ i _
  | E_Cargo _ i | E_Duration _ i _ => (Some i, None, None, None)
  | E_VesselLocationInformation _ i _ v _ | E_Travel _ i _ v _ _ _ =>
      (Some i, Some v, None, None)
  | E_Idle _ i _ v l => (Some i, Some v, Some l, None)
  | E_Arrival _ _ _ _ tr p | E_CargoTransfer _ _ _ _ tr p =>
      (None, None, None, Some (p, tr))
  end.

(** The entries of the schedule that an event's [EventItem] compares equal
    to: those with the event's time. *)
Definition at_time_of (e : Event) (x : EventItem) : bool :=
  time_eqb (EventItem_time x) (time e).

(** The parts of the engine that [put] does not touch. *)
Definition same_surroundings (eng eng' : Engine) : Prop :=
  current_time eng' = current_time eng
  /\ calls eng' = calls eng
  /\ shipping_companies eng' = shipping_companies eng
  /\ get_trades eng' = get_trades eng
  /\ generate_event_cargo eng' = generate_event_cargo eng.

(** The occurrence time lies outside the bound that applies: before the
    earliest or after the latest time of the pickup, or of the drop-off. *)
Definition violates (t : Time) (p : bool) (tw : TimeWindow) : Prop :=
  if p then
    (exists b, tw0 tw = Some b /\ time_ltb t b = true)
    \/ (exists b, tw1 tw = Some b /\ time_gtb t b = true)
  else
    (exists b, tw2 tw = Some b /\ time_ltb t b = true)
    \/ (exists b, tw3 tw = Some b /\ time_gtb t b = true).

(** The message reports a bound of the window that the time violates. *)
Definition reports (m : Message) (company : string) (t : Time) (p : bool)
    (tw : TimeWindow) : Prop :=
  match m with
  | loading_before_earliest_start c t' b =>
      p = true /\ c = company /\ t' = t /\ tw0 tw = Some b /\ time_ltb t b = true
  | loading_after_latest_finish c t' b =>
      p = true /\ c = company /\ t' = t /\ tw1 tw = Some b /\ time_gtb t b = true
  | unloading_before_earliest_start c t' b =>
      p = false /\ c = company /\ t' = t /\ tw2 tw = Some b /\ time_ltb t b = true
  | unloading_after_latest_finish c t' b =>
      p = false /\ c = company /\ t' = t /\ tw3 tw = Some b /\ time_gtb t b = true
  | _ => False
  end.

(** The entry belongs to the vessel, as [purge] tests it. *)
Definition bound_to (v : Vessel) (x : EventItem) : bool :=
  isinstance (EventItem_event x) CVesselEvent
  && bool_decide (vessel (EventItem_event x) = Some v).

(** The log message that shows the event can be formatted. *)
Definition printable (eng : Engine) (e : Event) : Prop := repr_raises eng e = None.

(** The schedule after [list.remove] was tried with an item of time [t]. *)
Fixpoint drop_first_at (t : Time) (q : list EventItem) : list EventItem :=
  match q with
  | [] => []
  | x :: q' => if time_eqb (EventItem_time x) t then q' else x :: drop_first_at t q'
  end.

(** * Properties *)

(** ** Correctness of the heap operations *)

Ltac Zify.zify_post_hook ::= Z.to_euclidean_division_equations.

Section HeapqCorrect.
Context {A : Type}.
Variable lt : A -> A -> bool.

(** [ok] singles out the items on which [lt] is a strict total order (for
    the queue: those whose time is not NaN). *)
Variable ok : A -> Prop.
Hypothesis lt_asym : forall a b, ok a -> ok b -> lt a b = true -> lt b a = false.
Hypothesis le_trans : forall a b c, ok a -> ok b -> ok c ->
  lt b a = false -> lt c b = false -> lt c a = false.

Local Abbreviation heap_le := (heap_le lt).
Local Abbreviation is_heap := (is_heap lt).
Local Abbreviation hole_inv := (hole_inv lt).
Local Abbreviation above_children := (above_children lt).


Lemma ok_lookup (h : list A) i x : Forall ok h -> h !! i = Some x -> ok x.
Proof. intros Hh Hx. exact (Forall_lookup_1 _ _ _ _ Hh Hx). Qed.

Lemma ok_insert (h : list A) i x : Forall ok h -> ok x -> Forall ok (<[i := x]> h).
Proof. intros Hh Hx. now apply Forall_insert. Qed.

Lemma list_set_Some (h : list A) i x :
  i < length h -> list_set h i x = Some (<[i := x]> h).
Proof. intros Hi. unfold list_set. now rewrite decide_True. Qed.


(** Filling the hole gives a heap when the new item fits between the
    parent of the hole and its children. *)
Lemma hole_fill h pos newitem :
  hole_inv h pos -> above_children h pos newitem ->
  (pos = 0 \/ exists pv, h !! parent pos = Some pv /\ heap_le pv newitem) ->
  is_heap (<[pos := newitem]> h).
Proof.
  intros (Hlen & Hb & Hc) Hd Hup i x p Hi Hx Hp.
  destruct (decide (i = pos)) as [->|Hne].
  - rewrite list_lookup_insert_eq in Hx by assumption.
    rewrite list_lookup_insert_ne in Hp by (unfold parent; lia).
    destruct Hup as [->|(pv & Hpv & Hle)]; [lia|]. congruence.
  - rewrite list_lookup_insert_ne in Hx by congruence.
    destruct (decide (parent i = pos)) as [Hpi|Hpi].
    + rewrite Hpi, list_lookup_insert_eq in Hp by assumption.
      injection Hp as <-. eauto.
    + rewrite list_lookup_insert_ne in Hp by congruence. eauto.
Qed.

(** One iteration of [_siftdown]: the parent moves into the hole. *)
Lemma hole_up h pos pv :
  Forall ok h -> 0 < pos -> hole_inv h pos -> h !! parent pos = Some pv ->
  hole_inv (<[pos := pv]> h) (parent pos).
Proof.
  intros Hok Hpos (Hlen & Hb & Hc) Hpv.
  assert (Hlt : parent pos < pos) by (unfold parent; lia).
  split; [rewrite length_insert; lia|]. split.
  - intros i x p Hi Hne Hpne Hx Hp.
    destruct (decide (i = pos)) as [->|Hip]; [congruence|].
    rewrite list_lookup_insert_ne in Hx by congruence.
    destruct (decide (parent i = pos)) as [Hpi|Hpi].
    + rewrite Hpi, list_lookup_insert_eq in Hp by assumption.
      injection Hp as <-. eauto.
    + rewrite list_lookup_insert_ne in Hp by congruence. eauto.
  - intros c x g Hpp Hc0 Hpc Hx Hg.
    assert (parent (parent pos) < parent pos) by (unfold parent in *; lia).
    rewrite list_lookup_insert_ne in Hg by lia.
    assert (Hgp : heap_le g pv) by (apply (Hb (parent pos)); auto; lia).
    destruct (decide (c = pos)) as [->|Hcp].
    + rewrite list_lookup_insert_eq in Hx by assumption. congruence.
    + rewrite list_lookup_insert_ne in Hx by congruence.
      assert (heap_le pv x).
      { apply (Hb c); auto; [lia|]. now rewrite Hpc. }
      apply (le_trans g pv x); eauto using ok_lookup.
Qed.

Lemma above_up h pos pv newitem :
  Forall ok h -> ok newitem -> 0 < pos -> hole_inv h pos ->
  h !! parent pos = Some pv -> lt newitem pv = true ->
  above_children (<[pos := pv]> h) (parent pos) newitem.
Proof.
  intros Hok Hn Hpos (Hlen & Hb & Hc) Hpv Hlt c x Hc0 Hpc Hx.
  assert (Hlt' : parent pos < pos) by (unfold parent; lia).
  assert (Hnp : heap_le newitem pv).
  { unfold heap_le. apply lt_asym; eauto using ok_lookup. }
  destruct (decide (c = pos)) as [->|Hcp].
  - rewrite list_lookup_insert_eq in Hx by assumption. congruence.
  - rewrite list_lookup_insert_ne in Hx by congruence.
    assert (heap_le pv x).
    { apply (Hb c); auto; [lia|]. now rewrite Hpc. }
    apply (le_trans newitem pv x); eauto using ok_lookup.
Qed.

Lemma insert_swap_perm (h : list A) i j x y :
  i < length h -> h !! j = Some y -> i <> j ->
  <[j := x]> (<[i := y]> h) ≡ₚ <[i := x]> h.
Proof.
  intros Hi Hj Hne.
  rewrite <- (list_insert_insert_eq h i y x).
  apply Permutation_insert_swap.
  - now apply list_lookup_insert_eq.
  - now rewrite list_lookup_insert_ne.
Qed.

Lemma siftdown_loop_spec fuel : forall h pos newitem,
  pos < fuel -> Forall ok h -> ok newitem ->
  hole_inv h pos -> above_children h pos newitem ->
  exists h' pos',
    siftdown_loop lt fuel h 0 pos newitem = Some (h', pos')
    /\ pos' < length h'
    /\ is_heap (<[pos' := newitem]> h')
    /\ <[pos' := newitem]> h' ≡ₚ <[pos := newitem]> h.
Proof.
  induction fuel as [|fuel IH]; intros h pos newitem Hfuel Hok Hn Hinv Hab; [lia|].
  cbn [siftdown_loop]. destruct (0 <? pos) eqn:Hpos.
  - apply Nat.ltb_lt in Hpos.
    assert (Hlen : pos < length h) by apply Hinv.
    assert (Hpl : (pos - 1) / 2 < pos) by lia.
    destruct (lookup_lt_is_Some_2 h ((pos - 1) / 2)) as [pv Hpv]; [lia|].
    rewrite Hpv. cbn [mbind option_bind]. destruct (lt newitem pv) eqn:Hlt.
    + rewrite list_set_Some by assumption. cbn [mbind option_bind].
      destruct (IH (<[pos := pv]> h) ((pos - 1) / 2) newitem)
        as (h' & pos' & Hrun & Hl & Hheap & Hperm).
      * lia.
      * eauto using ok_insert, ok_lookup.
      * assumption.
      * now apply hole_up.
      * now apply above_up.
      * exists h', pos'. repeat split; try assumption.
        rewrite Hperm. apply insert_swap_perm; [assumption..|lia].
    + exists h, pos. do 2 (split; [done|]). split; [|reflexivity].
      apply hole_fill; eauto.
  - apply Nat.ltb_ge in Hpos. exists h, pos.
    split; [done|]. split; [apply Hinv|]. split; [|reflexivity].
    apply hole_fill; auto. left; lia.
Qed.

Lemma siftdown_spec h pos newitem :
  h !! pos = Some newitem -> Forall ok h ->
  hole_inv h pos -> above_children h pos newitem ->
  exists h', siftdown lt h 0 pos = Some h' /\ is_heap h' /\ h' ≡ₚ h.
Proof.
  intros Hn Hok Hinv Hab. unfold siftdown. rewrite Hn. cbn [mbind option_bind].
  destruct (siftdown_loop_spec (S pos) h pos newitem)
    as (h' & pos' & Hrun & Hl & Hheap & Hperm);
    eauto using ok_lookup.
  rewrite Hrun. cbn [mbind option_bind fst snd]. rewrite list_set_Some by assumption.
  eexists; split; [reflexivity|]. split; [assumption|].
  rewrite Hperm. now rewrite list_insert_id.
Qed.




Lemma is_heap_nil : is_heap [].
Proof. intros i x p _ Hx. now rewrite lookup_nil in Hx. Qed.



Theorem heappush_spec h item :
  is_heap h -> Forall ok h -> ok item ->
  exists h', heappush lt h item = Some h' /\ is_heap h' /\ h' ≡ₚ item :: h.
Proof.
  intros Hh Hok Hitem. unfold heappush.
  replace (length (h ++ [item]) - 1) with (length h)
    by (rewrite length_app; simpl; lia).
  destruct (siftdown_spec (h ++ [item]) (length h) item)
    as (h' & Hrun & Hheap & Hperm).
  - now rewrite lookup_app_r, Nat.sub_diag by lia.
  - apply Forall_app. auto.
  - split; [rewrite length_app; simpl; lia|]. split.
    + intros i x p Hi Hne Hpne Hx Hp.
      assert (i < length h).
      { apply lookup_lt_Some in Hx. rewrite length_app in Hx. simpl in Hx. lia. }
      rewrite lookup_app_l in Hx by assumption.
      rewrite lookup_app_l in Hp by (unfold parent; lia). eauto.
    + intros c x g _ Hc Hpc Hx _. apply lookup_lt_Some in Hx.
      rewrite length_app in Hx. simpl in Hx. unfold parent in Hpc. lia.
  - intros c x Hc Hpc Hx. apply lookup_lt_Some in Hx.
    rewrite length_app in Hx. simpl in Hx. unfold parent in Hpc. lia.
  - exists h'. split; [assumption|]. split; [assumption|].
    rewrite Hperm. now rewrite Permutation_app_comm.
Qed.


End HeapqCorrect.

(** ** Times as an order *)

Lemma time_eqb_eq a b : time_eqb a b = true -> a = b.
Proof.
  destruct a, b; simpl; try discriminate; try reflexivity.
  intros H. apply Z.eqb_eq in H. now subst.
Qed.

Lemma time_eqb_sym a b : time_eqb a b = time_eqb b a.
Proof. destruct a, b; simpl; try reflexivity. apply Z.eqb_sym. Qed.

Lemma time_eqb_refl a : comparable a -> time_eqb a a = true.
Proof.
  intros H. destruct a; simpl; try reflexivity; [now destruct H|apply Z.eqb_refl].
Qed.

Lemma time_eqb_PInf a : time_eqb a PInf = true <-> a = PInf.
Proof. destruct a; simpl; split; congruence. Qed.

Lemma time_ltb_asym a b :
  comparable a -> comparable b -> time_ltb a b = true -> time_ltb b a = false.
Proof.
  destruct a, b; simpl; intros _ _; try congruence.
  intros H. apply Z.ltb_lt in H. apply Z.ltb_ge. lia.
Qed.

Lemma time_le_trans a b c :
  comparable a -> comparable b -> comparable c ->
  time_le a b -> time_le b c -> time_le a c.
Proof.
  unfold time_le, comparable.
  destruct a, b, c; simpl; intros Ha Hb Hc; try congruence.
  rewrite !Z.ltb_ge. lia.
Qed.

Lemma time_le_total a b :
  comparable a -> comparable b -> time_le a b \/ time_le b a.
Proof.
  unfold time_le, comparable. destruct a, b; simpl; intros Ha Hb; auto.
  rewrite !Z.ltb_ge. lia.
Qed.

(** ** The queue invariant *)

Lemma EventItem_lt_asym a b :
  item_ok a -> item_ok b -> EventItem_lt a b = true -> EventItem_lt b a = false.
Proof. apply time_ltb_asym. Qed.

Lemma EventItem_le_trans a b c :
  item_ok a -> item_ok b -> item_ok c ->
  EventItem_lt b a = false -> EventItem_lt c b = false -> EventItem_lt c a = false.
Proof. apply time_le_trans. Qed.

Lemma wf_queue_nil : wf_queue [].
Proof. split; [apply is_heap_nil|split; constructor]. Qed.

(** The hooks leave the event's time, the clock and the queue alone. *)
Lemma time_set_time_started s e : time (set_time_started s e) = time e.
Proof. now destruct e. Qed.

Lemma time_DurationEvent_added_to_queue now e :
  time (DurationEvent_added_to_queue now e) = time e.
Proof.
  unfold DurationEvent_added_to_queue.
  destruct (time_ltb (time e) now); apply time_set_time_started.
Qed.

Lemma added_to_queue_time e eng : time (added_to_queue e eng).1 = time e.
Proof.
  unfold added_to_queue, TravelEvent_added_to_queue.
  destruct e; simpl; try reflexivity;
    unfold DurationEvent_added_to_queue; simpl;
    match goal with |- context [time_ltb ?a ?b] => destruct (time_ltb a b) end;
    reflexivity.
Qed.

Lemma added_to_queue_queue e eng : queue (added_to_queue e eng).2 = queue eng.
Proof.
  unfold added_to_queue, TravelEvent_added_to_queue.
  destruct e; simpl; try reflexivity.
  unfold DurationEvent_added_to_queue; simpl.
  match goal with |- context [time_ltb ?a ?b] => destruct (time_ltb a b) end;
    reflexivity.
Qed.

Lemma added_to_queue_current_time e eng :
  current_time (added_to_queue e eng).2 = current_time eng.
Proof.
  unfold added_to_queue, TravelEvent_added_to_queue.
  destruct e; simpl; try reflexivity.
  unfold DurationEvent_added_to_queue; simpl.
  match goal with |- context [time_ltb ?a ?b] => destruct (time_ltb a b) end;
    reflexivity.
Qed.


Lemma put_spec e block timeout eng :
  wf_queue (queue eng) -> comparable (time e) -> time e <> PInf ->
  exists eng',
    put e block timeout eng = (Returns tt, ((added_to_queue e eng).1, eng'))
    /\ current_time eng' = current_time eng
    /\ wf_queue (queue eng')
    /\ queue eng' ≡ₚ item_of eng e :: queue eng.
Proof.
  intros (Hheap & Hok & Hkey) Hcmp Hinf. unfold put.
  destruct (time_eqb (time e) PInf) eqn:E.
  { apply time_eqb_PInf in E. contradiction. }
  destruct (added_to_queue e eng) as [e' eng1] eqn:Hadd.
  assert (He' : e' = (added_to_queue e eng).1) by now rewrite Hadd.
  assert (Hq : queue eng1 = queue eng).
  { replace eng1 with (added_to_queue e eng).2 by now rewrite Hadd.
    apply added_to_queue_queue. }
  assert (Hc : current_time eng1 = current_time eng).
  { replace eng1 with (added_to_queue e eng).2 by now rewrite Hadd.
    apply added_to_queue_current_time. }
  assert (Ht : time e' = time e) by (rewrite He'; apply added_to_queue_time).
  unfold PriorityQueue_put. cbn [queue add_log]. rewrite Hq.
  destruct (heappush_spec EventItem_lt item_ok EventItem_lt_asym EventItem_le_trans
              (queue eng) {| EventItem_time := time e'; EventItem_event := e' |})
    as (q' & Hpush & Hheap' & Hperm); [assumption..| |].
  { unfold item_ok. simpl. now rewrite Ht. }
  rewrite Hpush. eexists. split; [reflexivity|]. cbn [current_time queue set_queue add_log].
  split; [assumption|]. split.
  - split; [assumption|]. split; rewrite Hperm; constructor; try assumption.
    + unfold item_ok. simpl. now rewrite Ht.
    + reflexivity.
  - rewrite Hperm. unfold item_of. now rewrite <- He'.
Qed.


(** ** Ordered extraction *)






(** ** Insertion always succeeds *)

Section HeapqTotal.
Context {A : Type}.
Variable lt : A -> A -> bool.

Lemma siftdown_loop_total fuel : forall (h : list A) pos newitem,
  pos < fuel -> pos < length h ->
  exists h' pos',
    siftdown_loop lt fuel h 0 pos newitem = Some (h', pos')
    /\ pos' < length h'
    /\ <[pos' := newitem]> h' ≡ₚ <[pos := newitem]> h.
Proof.
  induction fuel as [|fuel IH]; intros h pos newitem Hfuel Hlen; [lia|].
  cbn [siftdown_loop]. destruct (0 <? pos) eqn:Hpos; [|exists h, pos; auto].
  apply Nat.ltb_lt in Hpos.
  assert (Hpl : (pos - 1) / 2 < pos) by lia.
  destruct (lookup_lt_is_Some_2 h ((pos - 1) / 2)) as [pv Hpv]; [lia|].
  rewrite Hpv. cbn [mbind option_bind].
  destruct (lt newitem pv); [|exists h, pos; auto].
  rewrite list_set_Some by assumption. cbn [mbind option_bind].
  destruct (IH (<[pos := pv]> h) ((pos - 1) / 2) newitem)
    as (h' & pos' & Hrun & Hl & Hperm); [lia|rewrite length_insert; lia|].
  exists h', pos'. do 2 (split; [assumption|]).
  rewrite Hperm. apply insert_swap_perm; [assumption..|lia].
Qed.

Lemma heappush_total (h : list A) item :
  exists h', heappush lt h item = Some h' /\ h' ≡ₚ item :: h.
Proof.
  unfold heappush, siftdown.
  replace (length (h ++ [item]) - 1) with (length h)
    by (rewrite length_app; simpl; lia).
  rewrite lookup_app_r, Nat.sub_diag by lia. cbn [lookup list_lookup mbind option_bind].
  destruct (siftdown_loop_total (S (length h)) (h ++ [item]) (length h) item)
    as (h' & pos' & Hrun & Hl & Hperm); [lia|rewrite length_app; simpl; lia|].
  rewrite Hrun. cbn [mbind option_bind fst snd].
  rewrite list_set_Some by assumption. eexists. split; [reflexivity|].
  rewrite Hperm, list_insert_id by (rewrite lookup_app_r, Nat.sub_diag by lia; reflexivity).
  now rewrite Permutation_app_comm.
Qed.
End HeapqTotal.

(** What a hook does to the engine: nothing, or a write of one vessel's
    location. *)
Lemma added_to_queue_engine e eng :
  (added_to_queue e eng).2 = eng
  \/ exists v l, (added_to_queue e eng).2 = set_vessel_location v l eng.
Proof.
  destruct e; simpl; auto.
  unfold added_to_queue, TravelEvent_added_to_queue, DurationEvent_added_to_queue.
  simpl. destruct (time_ltb _ _); simpl; eauto.
Qed.

Lemma put_total e block timeout eng :
  time e <> PInf ->
  exists eng',
    put e block timeout eng = (Returns tt, ((added_to_queue e eng).1, eng'))
    /\ same_surroundings eng eng'
    /\ queue eng' ≡ₚ item_of eng e :: queue eng.
Proof.
  intros Hinf. unfold put, item_of.
  destruct (time_eqb (time e) PInf) eqn:E.
  { apply time_eqb_PInf in E. contradiction. }
  pose proof (added_to_queue_queue e eng) as Hq.
  pose proof (added_to_queue_engine e eng) as Heng.
  destruct (added_to_queue e eng) as [e' eng1]. simpl in Hq, Heng.
  unfold PriorityQueue_put. cbn [queue add_log]. rewrite Hq.
  destruct (heappush_total EventItem_lt (queue eng)
              {| EventItem_time := time e'; EventItem_event := e' |})
    as (q' & Hpush & Hperm).
  rewrite Hpush. eexists. split; [reflexivity|]. split; [|exact Hperm].
  destruct Heng as [->|(v & l & ->)]; repeat split.
Qed.


(** ** Insertion at an infinite time *)

(** C4: inserting an event whose time is +infinity raises the [ValueError]
    of [put] (the specification's InvalidScheduleError); nothing has run
    before the [raise], so the event and the whole engine state (schedule,
    vessel locations, log) are as before: the hook was not invoked. *)
Theorem put_infinite_time_fails (e : Event) (block : bool) (timeout : option Time)
    (eng : Engine) :
  time e = PInf ->
  put e block timeout eng
  = (Raises (ValueError "Event with infinite deadline."), (e, eng)).
Proof. intros H. unfold put. now rewrite H. Qed.

(** At a travel event the hook would have published a provisional location
    and a start time; [put] leaves both untouched. *)
Lemma put_infinite_time_fails_witness :
  let v := {| vessel_id := 1; vessel_name := "v" |} in
  let e := E_Travel PInf None unstarted v (Port "A") (Port "B") false in
  time e = PInf
  /\ added_to_queue e initial_engine <> (e, initial_engine)
  /\ put e true None initial_engine
     = (Raises (ValueError "Event with infinite deadline."), (e, initial_engine)).
Proof.
  intros v e. split; [reflexivity|]. split.
  - intros H. apply (f_equal fst) in H. discriminate H.
  - apply (put_infinite_time_fails e true None initial_engine). reflexivity.
Defined.

(** ** Extraction from an empty queue *)




(** ** Duration events *)


Lemma isinstance_DurationEvent e :
  isinstance e CDurationEvent = true -> exists s, time_started e = Some s.
Proof. destruct e; simpl; try discriminate; eauto. Qed.

Lemma added_to_queue_duration e eng :
  isinstance e CDurationEvent = true ->
  (added_to_queue e eng).1 = DurationEvent_added_to_queue (current_time eng) e.
Proof.
  destruct e; simpl; try discriminate; try reflexivity. intros _.
  unfold added_to_queue, TravelEvent_added_to_queue, DurationEvent_added_to_queue.
  simpl. now destruct (time_ltb _ _).
Qed.

Lemma time_started_set s e :
  isinstance e CDurationEvent = true -> time_started (set_time_started s e) = Some s.
Proof. destruct e; simpl; try discriminate; reflexivity. Qed.



(** ** Equality of events *)

Lemma event_eqb_same_class (a b : Event) :
  class_of a = class_of b ->
  event_eqb a b = true
  <-> time_eqb (time a) (time b) = true /\ compared a = compared b.
Proof.
  destruct a, b; simpl; try discriminate; intros _;
    unfold event_eqb; simpl;
    unfold IdleEvent_eq, ArrivalEvent_eq, CargoTransferEvent_eq,
      VesselCargoEvent_eq, VesselEvent_eq, Event_eq; simpl;
    rewrite ?andb_true_r, ?andb_true_iff, ?bool_decide_eq_true;
    split; intros H; destruct_and?; split_and?; congruence.
Qed.

(** C7 (as amended): equality of events is structural, a function of the
    attribute values alone.  Two events of one class are equal exactly when
    their times are equal and the attributes their class compares agree, and
    for every class outside the [VesselCargoEvent] family these include the
    info label.  Two [IdleEvent]s are equal iff time, info label, vessel and
    location agree; as the constructor derives the label from the location
    and the vessel, two constructed [IdleEvent]s are equal iff time, vessel
    and location agree, and a change of any one of the three makes them
    unequal. *)
Theorem event_equality_is_structural :
  (forall a b, class_of a = class_of b ->
     (event_eqb a b = true
      <-> time_eqb (time a) (time b) = true /\ compared a = compared b))
  /\ (forall t i t' i',
        event_eqb (new_Event t i) (new_Event t' i') = true
        <-> time_eqb t t' = true /\ i = i')
  /\ (forall t i s v l t' i' s' v' l',
        event_eqb (E_Idle t i s v l) (E_Idle t' i' s' v' l') = true
        <-> time_eqb t t' = true /\ i = i' /\ v = v' /\ l = l')
  /\ (forall fmt t v l t' v' l',
        event_eqb (IdleEvent fmt t v l) (IdleEvent fmt t' v' l') = true
        <-> time_eqb t t' = true /\ v = v' /\ l = l')
  /\ (forall fmt t v l t' v' l',
        time_eqb t t' = false \/ v <> v' \/ l <> l' ->
        event_eqb (IdleEvent fmt t v l) (IdleEvent fmt t' v' l') = false).
Proof.
  assert (Hidle : forall fmt t v l t' v' l',
        event_eqb (IdleEvent fmt t v l) (IdleEvent fmt t' v' l') = true
        <-> time_eqb t t' = true /\ v = v' /\ l = l').
  { intros. unfold IdleEvent. rewrite event_eqb_same_class by reflexivity. simpl.
    split.
    - intros (Ht & Hc). injection Hc as _ -> ->. auto.
    - intros (Ht & -> & ->). auto. }
  split; [exact event_eqb_same_class|]. split; [|split; [|split; [exact Hidle|]]].
  - intros. unfold new_Event. rewrite event_eqb_same_class by reflexivity. simpl.
    split; intros (Ht & Hc); split; congruence.
  - intros. rewrite event_eqb_same_class by reflexivity. simpl.
    split.
    + intros (Ht & Hc). injection Hc as -> -> ->. auto.
    + intros (Ht & -> & -> & ->). auto.
  - intros fmt t v l t' v' l' H.
    destruct (event_eqb (IdleEvent fmt t v l) (IdleEvent fmt t' v' l')) eqn:E;
      [|reflexivity].
    apply Hidle in E as (Ht & Hv & Hl). destruct H as [H|[H|H]]; congruence.
Qed.

Lemma event_equality_is_structural_witness :
  let fmt := {| str_location := fun _ => "loc"; location_name := fun _ => "loc";
                str_amount := fun _ => "0"; str_len := fun _ => "0";
                str_time := fun _ => "0"; format_time := fun _ => "0" |} in
  let v := {| vessel_id := 1; vessel_name := "v" |} in
  let w := {| vessel_id := 2; vessel_name := "w" |} in
  Port "A" <> Port "B"
  /\ event_eqb (IdleEvent fmt (Fin 5) v (Port "A")) (IdleEvent fmt (Fin 5) v (Port "B")) = false
  /\ event_eqb (IdleEvent fmt (Fin 5) v (Port "A")) (IdleEvent fmt (Fin 5) w (Port "A")) = false
  /\ event_eqb (IdleEvent fmt (Fin 5) v (Port "A")) (IdleEvent fmt (Fin 6) v (Port "A")) = false
  /\ event_eqb (IdleEvent fmt (Fin 5) v (Port "A")) (IdleEvent fmt (Fin 5) v (Port "A")) = true.
Proof.
  intros fmt v w.
  destruct event_equality_is_structural as (_ & _ & _ & Hiff & Hne).
  split; [discriminate|].
  split; [apply Hne; right; right; discriminate|].
  split; [apply Hne; right; left; discriminate|].
  split; [apply Hne; left; reflexivity|].
  apply Hiff. auto.
Defined.

(** C7, the claim as stated fails: the info label takes part in equality.
    Two plain events of equal time, and two idle events of equal time,
    vessel and location, are unequal when their labels differ. *)
Lemma info_label_takes_part_in_equality :
  let v := {| vessel_id := 1; vessel_name := "v" |} in
  event_eqb (new_Event (Fin 5) (Some "a")) (new_Event (Fin 5) (Some "b")) = false
  /\ event_eqb (E_Idle (Fin 5) (Some "a") unstarted v (Port "A"))
               (E_Idle (Fin 5) (Some "b") unstarted v (Port "A")) = false.
Proof. split; reflexivity. Qed.

(** ** Removal *)

Lemma list_remove_None {A} (eq : A -> A -> bool) l value :
  list_remove eq l value = None <-> forall item, item ∈ l -> eq item value = false.
Proof.
  induction l as [|y l IH]; simpl.
  - split; [intros _ item Hin; inversion Hin|reflexivity].
  - destruct (eq y value) eqn:E.
    + split; [discriminate|]. intros H. rewrite (H y) in E; [discriminate|now left].
    + destruct (list_remove eq l value) as [l''|] eqn:Hr; simpl.
      * split; [discriminate|]. intros H.
        assert (Hn : Some l'' = None); [|discriminate].
        apply IH. intros item Hin. apply H. now right.
      * split; [|reflexivity]. intros _ item Hin.
        apply elem_of_cons in Hin as [->|Hin]; [assumption|].
        now apply (proj1 IH).
Qed.

Lemma list_remove_Some {A} (eq : A -> A -> bool) l value l' :
  list_remove eq l value = Some l' ->
  exists l1 item l2,
    l = l1 ++ item :: l2 /\ l' = l1 ++ l2 /\ eq item value = true
    /\ forall z, z ∈ l1 -> eq z value = false.
Proof.
  revert l'. induction l as [|y l IH]; simpl; intros l' H; [discriminate|].
  destruct (eq y value) eqn:E.
  - injection H as <-. exists [], y, l. repeat split; auto.
    intros z Hz. inversion Hz.
  - destruct (list_remove eq l value) as [l''|]; simpl in H; [|discriminate].
    injection H as <-.
    destruct (IH l'' eq_refl) as (l1 & item & l2 & -> & -> & Heq & Hl1).
    exists (y :: l1), item, l2. repeat split; auto.
    intros z Hz. apply elem_of_cons in Hz as [->|Hz]; auto.
Qed.

(** What one pass of the loop of [remove] does to the schedule, whether or
    not its log message can be formatted. *)
Lemma queue_remove_one e eng :
  queue (remove_one e eng).2 = drop_first_at (time e) (queue eng).
Proof.
  unfold remove_one.
  assert (H : forall q,
    match list_remove EventItem_eq q
            {| EventItem_time := time e; EventItem_event := e |} with
    | Some q' => q' = drop_first_at (time e) q
    | None => q = drop_first_at (time e) q
    end).
  { induction q as [|x q IH]; simpl; [reflexivity|].
    unfold EventItem_eq at 1. simpl.
    destruct (time_eqb (EventItem_time x) (time e)); [reflexivity|].
    destruct (list_remove EventItem_eq q _); simpl; now f_equal. }
  specialize (H (queue eng)).
  destruct (list_remove EventItem_eq (queue eng) _); cbv zeta;
    destruct (repr_raises _ e); simpl; assumption.
Qed.

Lemma remove_one_surroundings e eng :
  current_time (remove_one e eng).2 = current_time eng
  /\ vessel_location (remove_one e eng).2 = vessel_location eng
  /\ calls (remove_one e eng).2 = calls eng.
Proof.
  unfold remove_one. destruct (list_remove _ _ _); cbv zeta;
    destruct (repr_raises _ e); repeat split.
Qed.

Lemma remove_one_formatter e eng :
  format_time_raises (remove_one e eng).2 = format_time_raises eng.
Proof.
  unfold remove_one. destruct (list_remove _ _ _); cbv zeta;
    destruct (repr_raises _ e); reflexivity.
Qed.

Lemma printable_formatter eng eng' e :
  format_time_raises eng' = format_time_raises eng ->
  printable eng e -> printable eng' e.
Proof. unfold printable, repr_raises. now intros ->. Qed.

Lemma remove_one_returns e eng :
  printable eng e -> (remove_one e eng).1 = Returns tt.
Proof.
  unfold printable, remove_one. intros Hp.
  destruct (list_remove _ _ _) as [q|]; cbv zeta;
    [change (repr_raises (set_queue q eng) e) with (repr_raises eng e)|];
    now rewrite Hp.
Qed.

Lemma remove_single e eng : remove (inl e) eng = remove_one e eng.
Proof.
  unfold remove. cbn [remove_each].
  destruct (remove_one e eng) as [[[]|x|] eng']; reflexivity.
Qed.

Lemma foldl_remove_single es : forall eng,
  foldl (fun eng one => (remove (inl one) eng).2) eng es
  = foldl (fun eng one_event => (remove_one one_event eng).2) eng es.
Proof.
  induction es as [|e es IH]; intros eng; simpl; [reflexivity|].
  now rewrite remove_single, IH.
Qed.

(** When every message can be formatted, the loop runs to its end. *)
Lemma remove_each_returns es : forall eng,
  Forall (printable eng) es ->
  remove_each es eng
  = (Returns tt, foldl (fun eng one_event => (remove_one one_event eng).2) eng es).
Proof.
  induction es as [|e es IH]; intros eng Hp; simpl; [reflexivity|].
  apply Forall_cons in Hp as [He Hes].
  pose proof (remove_one_returns e eng He) as Hr.
  destruct (remove_one e eng) as [r eng1] eqn:E. simpl in Hr. subst r.
  simpl. apply IH.
  eapply Forall_impl; [exact Hes|]. intros e'. apply printable_formatter.
  change eng1 with (Returns tt, eng1).2. rewrite <- E. apply remove_one_formatter.
Qed.

Lemma queue_remove_each es : forall eng,
  queue (foldl (fun eng one_event => (remove_one one_event eng).2) eng es)
  = foldl (fun q t => drop_first_at t q) (queue eng) (time <$> es).
Proof.
  induction es as [|e es IH]; intros eng; simpl; [reflexivity|].
  now rewrite IH, queue_remove_one.
Qed.

(** C2 (as amended): for an event whose log message can be formatted (its
    time is one [format_time] returns on, which +infinity is not), [remove]
    returns without raising.  It deletes at most one entry of the schedule,
    and the entries that stay keep their order.  When every entry that has
    the event's time is structurally equal to the event, and there is one,
    the entry deleted is structurally equal to the event.  When no entry has
    the event's time (so that none is equal to it), the schedule is unchanged
    and only a warning is logged.  Given a list of such events, [remove] does
    this for each element in turn. *)
Theorem remove_deletes_at_most_one_entry (e : Event) (eng : Engine) :
  printable eng e ->
  exists eng',
    remove (inl e) eng = (Returns tt, eng')
    /\ (queue eng' = queue eng
        \/ exists l1 x l2, queue eng = l1 ++ x :: l2 /\ queue eng' = l1 ++ l2)
    /\ ((forall x, x ∈ queue eng -> at_time_of e x = true ->
           event_eqb (EventItem_event x) e = true) ->
        (exists x, x ∈ queue eng /\ at_time_of e x = true) ->
        exists l1 x l2,
          queue eng = l1 ++ x :: l2 /\ queue eng' = l1 ++ l2
          /\ event_eqb (EventItem_event x) e = true)
    /\ ((forall x, x ∈ queue eng -> at_time_of e x = false) ->
        queue eng' = queue eng
        /\ log eng' = log eng ++
             [{| level := WARNING;
                 message := Tried_to_remove_event_which_is_not_in_the_queue
                              {| EventItem_time := time e; EventItem_event := e |} |}])
    /\ forall es : list Event,
         Forall (printable eng) es ->
         remove (inr es) eng
         = (Returns tt, foldl (fun eng one => (remove (inl one) eng).2) eng es).
Proof.
  intros Hp.
  assert (Hlist : forall es : list Event,
            Forall (printable eng) es ->
            remove (inr es) eng
            = (Returns tt, foldl (fun eng one => (remove (inl one) eng).2) eng es)).
  { intros es Hes. rewrite foldl_remove_single. now apply remove_each_returns. }
  rewrite remove_single. unfold printable in Hp. unfold remove_one.
  destruct (list_remove EventItem_eq (queue eng) _) as [q|] eqn:Hr; cbv zeta.
  - change (repr_raises (set_queue q eng) e) with (repr_raises eng e). rewrite Hp.
    eexists. split; [reflexivity|].
    apply list_remove_Some in Hr as (l1 & x & l2 & Hq & -> & Hx & Hl1).
    cbn [queue add_log set_queue log].
    split; [right; eauto|]. split; [|split; [|exact Hlist]].
    + intros Hall _. exists l1, x, l2. split; [assumption|]. split; [reflexivity|].
      apply Hall; [rewrite Hq; apply elem_of_app; right; now left|exact Hx].
    + intros Hnone. assert (Hf : at_time_of e x = false).
      { apply Hnone. rewrite Hq. apply elem_of_app. right. now left. }
      unfold at_time_of in Hf. unfold EventItem_eq in Hx. simpl in Hx. congruence.
  - rewrite Hp. eexists. split; [reflexivity|].
    cbn [queue add_log log]. split; [now left|]. split; [|split; [auto|exact Hlist]].
    intros _ (x & Hin & Hx).
    pose proof (proj1 (list_remove_None _ _ _) Hr x Hin) as Hf.
    unfold at_time_of in Hx. unfold EventItem_eq in Hf. simpl in Hf. congruence.
Qed.

Lemma remove_deletes_at_most_one_entry_witness :
  let v := {| vessel_id := 1; vessel_name := "v" |} in
  let e := E_Idle (Fin 5) None (Fin 0) v (Port "A") in
  let other := E_Idle (Fin 7) None (Fin 0) v (Port "B") in
  exists eng,
    put_each [e] initial_engine = (Returns tt, eng)
    /\ printable eng e /\ printable eng other
    /\ remove (inl e) eng = (Returns tt, (remove (inl e) eng).2)
    /\ queue (remove (inl e) eng).2 = []
    /\ queue (remove (inl other) eng).2 = queue eng.
Proof.
  intros v e other.
  destruct (put_each [e] initial_engine) as [r eng] eqn:Hput.
  vm_compute in Hput. injection Hput as <- <-.
  eexists. split; [reflexivity|].
  split; [reflexivity|]. split; [reflexivity|].
  match goal with |- remove _ ?eng = _ /\ _ =>
    destruct (remove_deletes_at_most_one_entry e eng eq_refl)
      as (eng' & Hrun & _ & Hdel & _);
    destruct (remove_deletes_at_most_one_entry other eng eq_refl)
      as (eng'' & Hrun' & _ & _ & Hkeep & _) end.
  rewrite Hrun, Hrun'. split; [reflexivity|]. simpl. split.
  - destruct Hdel as (l1 & x & l2 & Hq & -> & _).
    + intros x Hx _. apply list_elem_of_singleton in Hx as ->. reflexivity.
    + eexists. split; [now left|reflexivity].
    + destruct l1 as [|? [|? ?]]; simpl in Hq; try discriminate Hq.
      now injection Hq as _ <-.
  - apply Hkeep.
    intros x Hx. apply list_elem_of_singleton in Hx as ->. reflexivity.
Defined.

(** C2, the claim as stated fails.  With two entries equal to the event in
    the schedule, [remove] leaves one of them there; and with no entry equal
    to the event, [remove] deletes an entry that merely has the event's
    time. *)
Lemma remove_neither_all_nor_only_equal_entries :
  let v := {| vessel_id := 1; vessel_name := "v" |} in
  let w := {| vessel_id := 2; vessel_name := "w" |} in
  let e := E_Idle (Fin 5) None (Fin 0) v (Port "A") in
  let other := E_Idle (Fin 5) None (Fin 0) w (Port "B") in
  (exists eng x,
     put_each [e; e] initial_engine = (Returns tt, eng)
     /\ x ∈ queue (remove (inl e) eng).2
     /\ event_eqb (EventItem_event x) e = true)
  /\ (exists eng,
        put_each [other] initial_engine = (Returns tt, eng)
        /\ (forall x, x ∈ queue eng -> event_eqb (EventItem_event x) e = false)
        /\ queue eng <> []
        /\ queue (remove (inl e) eng).2 = []).
Proof.
  intros v w e other. split.
  - eexists _, {| EventItem_time := Fin 5; EventItem_event := e |}.
    split; [vm_compute; reflexivity|]. split; [|reflexivity].
    vm_compute. now left.
  - eexists. split; [vm_compute; reflexivity|]. split; [|split].
    + intros x Hx. apply list_elem_of_singleton in Hx as ->. reflexivity.
    + discriminate.
    + reflexivity.
Qed.

(** ** Purging a vessel's events *)

(** C3, the code at the failing input: two vessels each have an idle event
    scheduled at time 5, the one of [w] inserted first.  [purge v] collects
    the event of [v] and hands it to [remove], which deletes the first entry
    whose time is 5: the event of [w] is gone and the event of [v] stays. *)
Lemma purge_deletes_another_vessels_event :
  let v := {| vessel_id := 1; vessel_name := "v" |} in
  let w := {| vessel_id := 2; vessel_name := "w" |} in
  let of_v := E_Idle (Fin 5) None (Fin 0) v (Port "A") in
  let of_w := E_Idle (Fin 5) None (Fin 0) w (Port "B") in
  exists eng,
    put_each [of_w; of_v] initial_engine = (Returns tt, eng)
    /\ EventItem_event <$> queue eng = [of_w; of_v]
    /\ EventItem_event <$> queue (purge v eng).2 = [of_v].
Proof. intros v w of_v of_w. eexists. repeat split; vm_compute; reflexivity. Qed.

(** ** Purging without a clash of times *)

Lemma bound_to_printable v eng :
  (forall x, x ∈ queue eng -> bound_to v x = true ->
     printable eng (EventItem_event x)) ->
  Forall (printable eng) (EventItem_event <$> List.filter (bound_to v) (queue eng)).
Proof.
  intros H. apply Forall_fmap, Forall_forall. intros x Hx.
  apply list_elem_of_In, List.filter_In in Hx as [Hx Hb].
  apply list_elem_of_In in Hx. simpl. auto.
Qed.

Lemma purge_collects v q :
  omap (fun event_item =>
          let event := EventItem_event event_item in
          if isinstance event CVesselEvent
          then if bool_decide (vessel event = Some v) then Some event else None
          else None) q
  = EventItem_event <$> List.filter (bound_to v) q.
Proof.
  induction q as [|x q IH]; simpl; [reflexivity|].
  unfold bound_to at 1.
  destruct (isinstance (EventItem_event x) CVesselEvent); simpl; [|exact IH].
  destruct (bool_decide _); simpl; [f_equal; exact IH|exact IH].
Qed.

(** When the messages for the vessel's events can be formatted, [purge]
    returns, having run the loop of [remove] over the vessel's events. *)
Lemma purge_returns v eng :
  (forall x, x ∈ queue eng -> bound_to v x = true ->
     printable eng (EventItem_event x)) ->
  purge v eng
  = (Returns tt,
     foldl (fun eng one_event => (remove_one one_event eng).2) eng
           (EventItem_event <$> List.filter (bound_to v) (queue eng))).
Proof.
  intros H. unfold purge. cbv zeta. rewrite purge_collects. unfold remove.
  apply remove_each_returns, bound_to_printable, H.
Qed.

Lemma drop_first_at_split t q :
  (exists x, x ∈ q /\ time_eqb (EventItem_time x) t = true) ->
  exists l1 y l2,
    q = l1 ++ y :: l2 /\ drop_first_at t q = l1 ++ l2
    /\ time_eqb (EventItem_time y) t = true.
Proof.
  induction q as [|x q IH]; intros (z & Hz & Ht); [inversion Hz|].
  simpl. destruct (time_eqb (EventItem_time x) t) eqn:E.
  - exists [], x, q. auto.
  - destruct IH as (l1 & y & l2 & -> & Hd & Hy).
    { apply elem_of_cons in Hz as [->|Hz]; [congruence|eauto]. }
    exists (x :: l1), y, l2. simpl. rewrite Hd. auto.
Qed.

Lemma filter_none_keeps_all {A} (f : A -> bool) l :
  List.filter f l = [] -> List.filter (fun x => negb (f x)) l = l.
Proof.
  induction l as [|x l IH]; simpl; [reflexivity|].
  destruct (f x); simpl; [discriminate|]. intros H. now rewrite IH.
Qed.

Lemma drop_each_bound v ts : forall q,
  Forall item_ok q ->
  ts ≡ₚ EventItem_time <$> List.filter (bound_to v) q ->
  (forall x y, x ∈ q -> y ∈ q -> bound_to v x = true ->
     EventItem_time y = EventItem_time x -> bound_to v y = true) ->
  foldl (fun q t => drop_first_at t q) q ts
  = List.filter (fun x => negb (bound_to v x)) q.
Proof.
  induction ts as [|t ts IH]; intros q Hok Hperm Hclash; simpl.
  - symmetry. apply filter_none_keeps_all.
    apply Permutation_nil_l in Hperm. symmetry in Hperm.
    now apply fmap_nil_inv in Hperm.
  - assert (Ht : t ∈ EventItem_time <$> List.filter (bound_to v) q)
      by (rewrite <- Hperm; now left).
    apply list_elem_of_fmap in Ht as (x & -> & Hx).
    apply list_elem_of_In, List.filter_In in Hx as [Hx Hbx].
    apply list_elem_of_In in Hx.
    destruct (drop_first_at_split (EventItem_time x) q) as (l1 & y & l2 & Hq & Hd & Hy).
    { exists x. split; [assumption|]. apply time_eqb_refl.
      exact (proj1 (Forall_forall _ _) Hok x Hx). }
    apply time_eqb_eq in Hy.
    assert (Hby : bound_to v y = true).
    { apply (Hclash x y); auto. rewrite Hq. apply elem_of_app. right. now left. }
    rewrite Hd, Hq, !List.filter_app. simpl. rewrite Hby. simpl.
    rewrite <- List.filter_app. apply IH.
    + rewrite Hq in Hok. apply Forall_app in Hok as [H1 H2].
      apply Forall_cons in H2 as [_ H2]. apply Forall_app. auto.
    + rewrite Hq, List.filter_app in Hperm. simpl in Hperm. rewrite Hby in Hperm.
      rewrite fmap_app, fmap_cons, <- Permutation_middle, Hy in Hperm.
      apply Permutation_cons_inv in Hperm.
      now rewrite List.filter_app, fmap_app.
    + intros a b Ha Hb. apply Hclash; rewrite Hq.
      * apply elem_of_app in Ha as [Ha|Ha]; apply elem_of_app; [now left|].
        right. now right.
      * apply elem_of_app in Hb as [Hb|Hb]; apply elem_of_app; [now left|].
        right. now right.
Qed.

(** X8.  Outside the defect reported for C3 the claim holds: when no entry shares
    its time with an entry of the vessel unless it is itself an entry of the
    vessel, [purge] removes exactly the entries of the vessel and leaves
    the others as they are, in their order.  (The log messages for the
    vessel's events are taken to be ones that can be formatted, as they
    were when [put] logged these events; [purge] then returns.) *)
Lemma purge_without_time_clash (v : Vessel) (eng : Engine) :
  Forall item_ok (queue eng) -> Forall keyed (queue eng) ->
  (forall x, x ∈ queue eng -> bound_to v x = true ->
     printable eng (EventItem_event x)) ->
  (forall x y, x ∈ queue eng -> y ∈ queue eng -> bound_to v x = true ->
     EventItem_time y = EventItem_time x -> bound_to v y = true) ->
  purge v eng = (Returns tt, (purge v eng).2)
  /\ queue (purge v eng).2 = List.filter (fun x => negb (bound_to v x)) (queue eng).
Proof.
  intros Hok Hkey Hprint Hclash.
  rewrite (purge_returns v eng Hprint). split; [reflexivity|]. cbn [snd].
  rewrite queue_remove_each, <- list_fmap_compose.
  apply drop_each_bound; [assumption| |assumption].
  erewrite list_fmap_ext; [reflexivity|].
  intros i x Hx. simpl. symmetry.
  apply list_elem_of_lookup_2, list_elem_of_In, List.filter_In in Hx as [Hx _].
  apply list_elem_of_In in Hx.
  exact (proj1 (Forall_forall _ _) Hkey x Hx).
Qed.

(** [remove] deletes from the middle of the heap list without restoring the
    heap order: after it, [get] may return an event that is not the
    earliest.  The statements about extraction above are about schedules
    built by insertions and extractions. *)
Lemma remove_can_break_the_heap_order :
  let ev := fun t => new_Event (Fin t) None in
  exists eng,
    put_each [ev 1%Z; ev 5%Z; ev 2%Z; ev 6%Z; ev 7%Z] initial_engine = (Returns tt, eng)
    /\ (get true None (remove (inl (ev 1%Z)) eng).2).1 = Returns (ev 5%Z)
    /\ {| EventItem_time := Fin 2; EventItem_event := ev 2%Z |}
         ∈ queue (remove (inl (ev 1%Z)) eng).2.
Proof.
  intros ev. eexists. split; [vm_compute; reflexivity|].
  split; [vm_compute; reflexivity|]. vm_compute. right. now left.
Qed.

(** ** Equality of vessel cargo events *)

(** C10: two arrival events, or two cargo transfer events, with equal time,
    equal trade and the same pickup flag are equal, whatever their vessels
    and info labels.  Consequently the operations on the schedule match an
    entry bound to another vessel: on a schedule whose only entry is such an
    event [b], [contains] holds for [a], [getitem] of [a] returns [b], and
    [remove] of [a] deletes it; this is shown on a schedule whose only entry
    belongs to another vessel than the queried event, and for [purge] on a
    schedule where the vessel purged keeps its own entry and the entry of
    the other vessel is gone. *)
Theorem cargo_events_equal_across_vessels :
  (forall a b,
     isinstance a CVesselCargoEvent = true -> class_of a = class_of b ->
     time_eqb (time a) (time b) = true -> trade a = trade b ->
     is_pickup a = is_pickup b ->
     event_eqb a b = true)
  /\ (forall t i s v tr p i' s' v',
        time_eqb t t = true ->
        event_eqb (E_Arrival t i s v tr p) (E_Arrival t i' s' v' tr p) = true
        /\ event_eqb (E_CargoTransfer t i s v tr p)
                     (E_CargoTransfer t i' s' v' tr p) = true)
  /\ (forall a b eng,
        isinstance a CVesselCargoEvent = true -> class_of a = class_of b ->
        time_eqb (time a) (time b) = true -> trade a = trade b ->
        is_pickup a = is_pickup b ->
        queue eng = [{| EventItem_time := time b; EventItem_event := b |}] ->
        contains a eng = true
        /\ getitem a eng = Returns b
        /\ queue (remove (inl a) eng).2 = [])
  /\ (exists eng query entry,
        vessel query <> vessel entry /\ info query <> info entry
        /\ event_eqb query entry = true
        /\ EventItem_event <$> queue eng = [entry]
        /\ contains query eng = true
        /\ getitem query eng = Returns entry
        /\ (remove (inl query) eng).1 = Returns tt
        /\ queue (remove (inl query) eng).2 = [])
  /\ (exists eng query entry other,
        vessel query <> vessel entry /\ info query <> info entry
        /\ event_eqb query entry = true
        /\ EventItem_event <$> queue eng = [entry; other]
        /\ vessel other = vessel query
        /\ getitem query eng = Returns entry
        /\ EventItem_event <$> queue (remove (inl query) eng).2 = [other]
        /\ (exists v, vessel query = Some v
                      /\ (purge v eng).1 = Returns tt
                      /\ EventItem_event <$> queue (purge v eng).2 = [other])).
Proof.
  assert (Hgen : forall a b,
     isinstance a CVesselCargoEvent = true -> class_of a = class_of b ->
     time_eqb (time a) (time b) = true -> trade a = trade b ->
     is_pickup a = is_pickup b ->
     event_eqb a b = true).
  { intros a b Ha Hc Ht Htr Hp. apply event_eqb_same_class; [assumption|].
    split; [assumption|].
    destruct a; try discriminate Ha; destruct b; try discriminate Hc;
      simpl in *; congruence. }
  set (v := {| vessel_id := 1; vessel_name := "v" |}).
  set (w := {| vessel_id := 2; vessel_name := "w" |}).
  set (tr := {| origin_port := Port "A"; destination_port := Port "B";
                cargo_type := "X"; amount := 100%Z;
                time_window := {| tw0 := None; tw1 := None;
                                  tw2 := None; tw3 := None |} |}).
  set (query := E_Arrival (Fin 5) (Some "query") (Fin 0) w tr true).
  set (entry := E_Arrival (Fin 5) (Some "entry") (Fin 0) v tr true).
  set (other := E_Arrival (Fin 5) (Some "other") (Fin 0) w tr true).
  split; [exact Hgen|]. split; [|split; [|split]].
  - intros. split; apply Hgen; auto.
  - intros a b eng _ _ Ht _ _ Hq.
    assert (Ht' : time_eqb (time b) (time a) = true) by now rewrite time_eqb_sym.
    split; [|split].
    + unfold contains. rewrite Hq. cbn. unfold EventItem_eq. cbn. now rewrite Ht.
    + unfold getitem. rewrite Hq. cbn. unfold EventItem_eq. cbn. now rewrite Ht.
    + rewrite remove_single, queue_remove_one, Hq. cbn. now rewrite Ht'.
  - exists (put_each [entry] initial_engine).2, query, entry.
    split; [discriminate|]. split; [discriminate|].
    split; [reflexivity|]. split; [vm_compute; reflexivity|].
    split; [vm_compute; reflexivity|]. split; [vm_compute; reflexivity|].
    split; vm_compute; reflexivity.
  - exists (put_each [entry; other] initial_engine).2, query, entry, other.
    split; [discriminate|]. split; [discriminate|].
    split; [reflexivity|]. split; [vm_compute; reflexivity|].
    split; [reflexivity|]. split; [vm_compute; reflexivity|].
    split; [vm_compute; reflexivity|].
    exists w. split; [reflexivity|]. split; vm_compute; reflexivity.
Qed.

Lemma cargo_events_equal_across_vessels_witness :
  let v := {| vessel_id := 1; vessel_name := "v" |} in
  let w := {| vessel_id := 2; vessel_name := "w" |} in
  let tr := {| origin_port := Port "A"; destination_port := Port "B";
               cargo_type := "X"; amount := 100%Z;
               time_window := {| tw0 := None; tw1 := None;
                                 tw2 := None; tw3 := None |} |} in
  let a := E_CargoTransfer (Fin 5) (Some "a") (Fin 0) v tr false in
  let b := E_CargoTransfer (Fin 5) (Some "b") (Fin 3) w tr false in
  let eng := set_queue [{| EventItem_time := time b; EventItem_event := b |}]
                       initial_engine in
  isinstance a CVesselCargoEvent = true /\ class_of a = class_of b
  /\ time_eqb (time a) (time b) = true /\ trade a = trade b
  /\ is_pickup a = is_pickup b /\ vessel a <> vessel b /\ info a <> info b
  /\ event_eqb a b = true
  /\ contains a eng = true /\ getitem a eng = Returns b
  /\ queue (remove (inl a) eng).2 = [].
Proof.
  intros v w tr a b eng. do 5 (split; [reflexivity|]).
  split; [discriminate|]. split; [discriminate|].
  destruct cargo_events_equal_across_vessels as (Heq & _ & Hops & _).
  split; [apply (Heq a b); reflexivity|].
  apply (Hops a b eng); reflexivity.
Defined.

(** ** Arrival outside the time window *)

Lemma before_bound_Some t bound b :
  before_bound t bound = Some b <-> bound = Some b /\ time_ltb t b = true.
Proof.
  unfold before_bound. destruct bound as [b'|]; [|split; [discriminate|now intros [? _]]].
  destruct (time_ltb t b') eqn:E; split.
  - intros H. injection H as ->. auto.
  - intros [H _]. exact H.
  - discriminate.
  - intros [H Ht]. injection H as ->. congruence.
Qed.

Lemma after_bound_Some t bound b :
  after_bound t bound = Some b <-> bound = Some b /\ time_gtb t b = true.
Proof.
  unfold after_bound. destruct bound as [b'|]; [|split; [discriminate|now intros [? _]]].
  destruct (time_gtb t b') eqn:E; split.
  - intros H. injection H as ->. auto.
  - intros [H _]. exact H.
  - discriminate.
  - intros [H Ht]. injection H as ->. congruence.
Qed.

(** C8: executing an arrival event whose time violates the applicable bound
    of the trade's window returns normally; it logs one error that reports
    the violation; the vessel's location is afterwards the event's location
    (the origin port of a pickup, the destination port of a drop-off); the
    only call made on the vessel is [event_occurrence], so its cargo is
    neither loaded nor unloaded; the event and the schedule are unchanged. *)
Theorem arrival_outside_time_window (fmt : Formats) (t : Time) (i : option string)
    (s : Time) (v : Vessel) (tr : Trade) (p : bool) (eng : Engine) :
  violates t p (time_window tr) ->
  let self := E_Arrival t i s v tr p in
  exists eng' m,
    event_action fmt self eng = (Returns NoData, (self, eng'))
    /\ log eng' = log eng ++ [{| level := ERROR; message := m |}]
    /\ reports m (company_name (find_company_for_vessel eng v)) t p (time_window tr)
    /\ location self = Some (if p then origin_port tr else destination_port tr)
    /\ vessel_location eng' !! vessel_id v = location self
    /\ calls eng' = calls eng ++ [vessel_event_occurrence v self]
    /\ queue eng' = queue eng.
Proof.
  intros Hviol self.
  exists (ArrivalEvent_event_action self eng).
  unfold ArrivalEvent_event_action, VesselEvent_event_action. cbn -[before_bound after_bound].
  unfold violates in Hviol. destruct p.
  - destruct (before_bound t (tw0 (time_window tr))) as [b|] eqn:Hb.
    + apply before_bound_Some in Hb as [Hb Ht]. eexists. split; [reflexivity|].
      cbn. rewrite lookup_insert_eq. repeat split; assumption.
    + destruct (after_bound t (tw1 (time_window tr))) as [b|] eqn:Ha.
      * apply after_bound_Some in Ha as [Ha Ht]. eexists. split; [reflexivity|].
        cbn. rewrite lookup_insert_eq. repeat split; assumption.
      * exfalso. destruct Hviol as [(b & H1 & H2)|(b & H1 & H2)].
        -- assert (before_bound t (tw0 (time_window tr)) = Some b)
             by now apply before_bound_Some.
           congruence.
        -- assert (after_bound t (tw1 (time_window tr)) = Some b)
             by now apply after_bound_Some.
           congruence.
  - destruct (before_bound t (tw2 (time_window tr))) as [b|] eqn:Hb.
    + apply before_bound_Some in Hb as [Hb Ht]. eexists. split; [reflexivity|].
      cbn. rewrite lookup_insert_eq. repeat split; assumption.
    + destruct (after_bound t (tw3 (time_window tr))) as [b|] eqn:Ha.
      * apply after_bound_Some in Ha as [Ha Ht]. eexists. split; [reflexivity|].
        cbn. rewrite lookup_insert_eq. repeat split; assumption.
      * exfalso. destruct Hviol as [(b & H1 & H2)|(b & H1 & H2)].
        -- assert (before_bound t (tw2 (time_window tr)) = Some b)
             by now apply before_bound_Some.
           congruence.
        -- assert (after_bound t (tw3 (time_window tr)) = Some b)
             by now apply after_bound_Some.
           congruence.
Qed.

Lemma arrival_outside_time_window_witness :
  let fmt := {| str_location := fun _ => "loc"; location_name := fun _ => "loc";
                str_amount := fun _ => "0"; str_len := fun _ => "0";
                str_time := fun _ => "0"; format_time := fun _ => "0" |} in
  let v := {| vessel_id := 1; vessel_name := "v" |} in
  let tr := {| origin_port := Port "A"; destination_port := Port "B";
               cargo_type := "X"; amount := 100%Z;
               time_window := {| tw0 := Some (Fin 5); tw1 := Some (Fin 8);
                                 tw2 := None; tw3 := None |} |} in
  let self := E_Arrival (Fin 9) None (Fin 0) v tr true in
  violates (Fin 9) true (time_window tr)
  /\ exists eng',
      event_action fmt self initial_engine = (Returns NoData, (self, eng'))
      /\ log eng' = [{| level := ERROR;
                        message := loading_after_latest_finish "company" (Fin 9) (Fin 8) |}]
      /\ vessel_location eng' !! 1 = Some (Port "A")
      /\ calls eng' = [vessel_event_occurrence v self].
Proof.
  intros fmt v tr self.
  assert (Hviol : violates (Fin 9) true (time_window tr)).
  { right. exists (Fin 8). split; reflexivity. }
  split; [exact Hviol|].
  destruct (arrival_outside_time_window fmt (Fin 9) None (Fin 0) v tr true
              initial_engine Hviol)
    as (eng' & m & Hrun & Hlog & Hrep & Hloc & Hvl & Hcalls & _).
  exists eng'. split; [exact Hrun|]. split; [|split; [|exact Hcalls]].
  - rewrite Hlog. simpl. destruct m; simpl in Hrep; try contradiction.
    + destruct Hrep as (_ & _ & _ & Hb & Hlt). simpl in Hb.
      injection Hb as <-. discriminate Hlt.
    + destruct Hrep as (_ & -> & -> & Hb & _). simpl in Hb.
      injection Hb as <-. reflexivity.
    + destruct Hrep as (Hp & _). discriminate Hp.
    + destruct Hrep as (Hp & _). discriminate Hp.
  - simpl in Hvl. rewrite Hvl. exact Hloc.
Defined.

(** ** Cargo announcements *)




(** * Further properties *)

(** ** Extraction and insertion on any schedule *)

Section HeapqPopTotal.
Context {A : Type}.
Variable lt : A -> A -> bool.

Lemma siftup_loop_total fuel : forall (h : list A) pos,
  length h - pos < fuel -> pos < length h ->
  exists h' pos',
    siftup_loop lt fuel h (length h) pos = Some (h', pos')
    /\ length h' = length h /\ pos' < length h'
    /\ forall n, <[pos' := n]> h' ≡ₚ <[pos := n]> h.
Proof.
  induction fuel as [|fuel IH]; intros h pos Hfuel Hlen; [lia|].
  assert (Hstep : forall c cv,
    pos < c -> h !! c = Some cv ->
    exists h' pos',
      (child ← h !! c; heap ← list_set h pos child;
       siftup_loop lt fuel heap (length h) c) = Some (h', pos')
      /\ length h' = length h /\ pos' < length h'
      /\ forall n, <[pos' := n]> h' ≡ₚ <[pos := n]> h).
  { intros c cv Hc Hcv.
    assert (Hcl : c < length h) by eauto using lookup_lt_Some.
    rewrite Hcv. cbn [mbind option_bind].
    rewrite list_set_Some by assumption. cbn [mbind option_bind].
    destruct (IH (<[pos := cv]> h) c) as (h' & pos' & Hrun & Hl & Hp & Hperm).
    - rewrite length_insert. lia.
    - rewrite length_insert. lia.
    - rewrite length_insert in Hrun, Hl. exists h', pos'.
      do 3 (split; [assumption|]).
      intros n. rewrite Hperm. apply insert_swap_perm; [assumption..|lia]. }
  cbn [siftup_loop]. destruct (2 * pos + 1 <? length h) eqn:Hchild.
  - apply Nat.ltb_lt in Hchild.
    destruct (lookup_lt_is_Some_2 h (2 * pos + 1)) as [lv Hlv]; [lia|].
    rewrite Hlv. cbn [mbind option_bind].
    destruct (2 * pos + 1 + 1 <? length h) eqn:Hright.
    + apply Nat.ltb_lt in Hright.
      destruct (lookup_lt_is_Some_2 h (2 * pos + 1 + 1)) as [rv Hrv]; [lia|].
      rewrite Hrv. cbn [mbind option_bind].
      destruct (lt lv rv); cbn [negb].
      * apply (Hstep (2 * pos + 1) lv); [lia|assumption].
      * apply (Hstep (2 * pos + 1 + 1) rv); [lia|assumption].
    + cbn [mbind option_bind]. apply (Hstep (2 * pos + 1) lv); [lia|assumption].
  - exists h, pos. auto.
Qed.

Lemma siftdown_total (h : list A) pos :
  pos < length h -> exists h', siftdown lt h 0 pos = Some h' /\ h' ≡ₚ h.
Proof.
  intros Hlen. unfold siftdown.
  destruct (lookup_lt_is_Some_2 h pos Hlen) as [newitem Hn].
  rewrite Hn. cbn [mbind option_bind].
  destruct (siftdown_loop_total lt (S pos) h pos newitem)
    as (h' & pos' & Hrun & Hl & Hperm); [lia|assumption|].
  rewrite Hrun. cbn [mbind option_bind fst snd].
  rewrite list_set_Some by assumption. eexists. split; [reflexivity|].
  rewrite Hperm. now rewrite list_insert_id.
Qed.

Lemma siftup_total (h : list A) :
  0 < length h -> exists h', siftup lt h 0 = Some h' /\ h' ≡ₚ h.
Proof.
  intros Hlen. unfold siftup.
  destruct (lookup_lt_is_Some_2 h 0 Hlen) as [newitem Hn].
  rewrite Hn. cbn [mbind option_bind].
  destruct (siftup_loop_total (S (length h)) h 0)
    as (h1 & p1 & Hrun & Hl & Hp1 & Hperm); [lia|assumption|].
  rewrite Hrun. cbn [mbind option_bind fst snd].
  rewrite list_set_Some by assumption. cbn [mbind option_bind].
  destruct (siftdown_total (<[p1 := newitem]> h1) p1) as (h' & Hrun' & Hperm').
  { now rewrite length_insert. }
  exists h'. split; [assumption|].
  rewrite Hperm', Hperm. now rewrite list_insert_id.
Qed.

Lemma heappop_total (h : list A) :
  h <> [] ->
  exists x h', heappop lt h = Some (x, h') /\ h !! 0 = Some x /\ h ≡ₚ x :: h'.
Proof.
  intros Hne.
  destruct (proj2 (last_is_Some h) Hne) as [lastelt Hlast].
  destruct (proj1 (last_Some h lastelt) Hlast) as [init ->].
  unfold heappop, list_pop. rewrite Hlast. cbn [mbind option_bind fst snd].
  replace (length (init ++ [lastelt]) - 1) with (length init)
    by (rewrite length_app; simpl; lia).
  rewrite take_app_length.
  destruct init as [|r t].
  - exists lastelt, []. auto.
  - cbn [lookup list_lookup mbind option_bind].
    rewrite list_set_Some by (simpl; lia). cbn [mbind option_bind].
    destruct (siftup_total (<[0 := lastelt]> (r :: t))) as (h' & Hrun & Hperm).
    { rewrite length_insert. simpl. lia. }
    rewrite Hrun. cbn [mbind option_bind].
    exists r, h'. split; [reflexivity|]. split; [reflexivity|].
    rewrite Hperm. simpl. rewrite <- Permutation_cons_append. reflexivity.
Qed.
End HeapqPopTotal.

(** X1: on a schedule that holds at least one entry, in whatever order its
    list is, a [get] that does not time out returns the event of the entry
    at the front of the list and removes exactly that entry; the clock, the
    vessel locations, the calls and the log are as before. *)
Theorem get_returns_the_front_entry (block : bool) (eng : Engine) :
  queue eng <> [] ->
  exists item eng',
    get block None eng = (Returns (EventItem_event item), eng')
    /\ queue eng !! 0 = Some item
    /\ queue eng ≡ₚ item :: queue eng'
    /\ current_time eng' = current_time eng
    /\ vessel_location eng' = vessel_location eng
    /\ calls eng' = calls eng
    /\ log eng' = log eng.
Proof.
  intros Hne. unfold get, PriorityQueue_get.
  destruct (heappop_total EventItem_lt (queue eng) Hne) as (x & q' & Hpop & Hroot & Hperm).
  rewrite Hpop, bool_decide_false by assumption.
  exists x, (set_queue q' eng). split; [now destruct block|].
  split; [assumption|]. split; [assumption|]. repeat split.
Qed.

Lemma get_returns_the_front_entry_witness :
  let a := new_Event (Fin 4) None in
  let b := new_Event (Fin 2) None in
  exists eng,
    put_each [a; b] initial_engine = (Returns tt, eng)
    /\ queue eng <> []
    /\ exists item eng',
        get true None eng = (Returns (EventItem_event item), eng')
        /\ queue eng !! 0 = Some item
        /\ EventItem_event item = b.
Proof.
  intros a b. eexists. split; [vm_compute; reflexivity|].
  split; [discriminate|].
  match goal with |- context [get true None ?e] =>
    destruct (get_returns_the_front_entry true e) as (item & eng' & Hget & Hfront & _) end.
  { discriminate. }
  exists item, eng'. split; [exact Hget|]. split; [exact Hfront|].
  vm_compute in Hfront. now injection Hfront as <-.
Defined.



(** ** The provisional location *)



(** ** Membership and lookup *)

Lemma contains_true e eng :
  contains e eng = true
  <-> exists x, x ∈ queue eng /\ time_eqb (time e) (EventItem_time x) = true.
Proof.
  unfold contains. rewrite List.existsb_exists. split.
  - intros (x & Hx & Ht). exists x. split; [now apply list_elem_of_In|exact Ht].
  - intros (x & Hx & Ht). exists x. split; [now apply list_elem_of_In|exact Ht].
Qed.


(** X5: [getitem] succeeds exactly when [contains] holds.  It then returns
    the event of the first entry whose time equals the time of the event
    asked for, whatever that entry's event is; otherwise, and in particular
    on an empty schedule, it raises a [ValueError] that carries the event
    asked for. *)
Theorem getitem_agrees_with_contains (e : Event) (eng : Engine) :
  (contains e eng = true ->
     exists l1 x l2,
       queue eng = l1 ++ x :: l2
       /\ getitem e eng = Returns (EventItem_event x)
       /\ time_eqb (time e) (EventItem_time x) = true
       /\ forall y, y ∈ l1 -> time_eqb (time e) (EventItem_time y) = false)
  /\ (contains e eng = false -> getitem e eng = Raises (ValueError_event e))
  /\ (queue eng = [] -> contains e eng = false).
Proof.
  unfold contains, getitem.
  generalize (queue eng). intros q. split; [|split].
  - induction q as [|y q IH]; simpl; [discriminate|].
    unfold EventItem_eq at 1 3. simpl.
    destruct (time_eqb (time e) (EventItem_time y)) eqn:E; simpl.
    + intros _. exists [], y, q. repeat split; auto. intros z Hz. inversion Hz.
    + intros H. destruct (IH H) as (l1 & x & l2 & -> & Hget & Hx & Hl1).
      exists (y :: l1), x, l2. repeat split; auto.
      intros z Hz. apply elem_of_cons in Hz as [->|Hz]; auto.
  - induction q as [|y q IH]; simpl; [reflexivity|].
    unfold EventItem_eq at 1 3. simpl.
    destruct (time_eqb (time e) (EventItem_time y)); simpl; [discriminate|exact IH].
  - now intros ->.
Qed.

Lemma getitem_agrees_with_contains_witness :
  let a := new_Event (Fin 4) (Some "a") in
  let probe := new_Event (Fin 4) (Some "probe") in
  let missing := new_Event (Fin 5) None in
  exists eng,
    put_each [a] initial_engine = (Returns tt, eng)
    /\ contains probe eng = true
    /\ getitem probe eng = Returns a
    /\ contains missing eng = false
    /\ getitem missing eng = Raises (ValueError_event missing).
Proof.
  intros a probe missing. eexists. split; [vm_compute; reflexivity|].
  match goal with |- contains _ ?e = _ /\ _ =>
    destruct (getitem_agrees_with_contains probe e) as (Hyes & _);
    destruct (getitem_agrees_with_contains missing e) as (_ & Hno & _) end.
  split; [reflexivity|]. split.
  - destruct (Hyes eq_refl) as (l1 & x & l2 & Hq & Hget & _).
    rewrite Hget. destruct l1 as [|? [|? ?]]; simpl in Hq; try discriminate Hq.
    now injection Hq as <- _.
  - split; [reflexivity|]. apply Hno. reflexivity.
Defined.



(** ** What removal leaves alone *)

Lemma drop_first_at_other_times t q :
  List.filter (fun x => negb (time_eqb (EventItem_time x) t)) (drop_first_at t q)
  = List.filter (fun x => negb (time_eqb (EventItem_time x) t)) q.
Proof.
  induction q as [|x q IH]; simpl; [reflexivity|].
  destruct (time_eqb (EventItem_time x) t) eqn:E; simpl; [reflexivity|].
  now rewrite E, IH.
Qed.

Lemma drop_first_at_none t q :
  (forall x, x ∈ q -> time_eqb (EventItem_time x) t = false) ->
  drop_first_at t q = q.
Proof.
  induction q as [|x q IH]; intros H; simpl; [reflexivity|].
  rewrite (H x) by now left. f_equal. apply IH. intros y Hy. apply H. now right.
Qed.

(** X6: [remove] of an event changes nothing but the schedule and the log,
    and in the schedule it leaves every entry whose time differs from the
    event's where it is; the schedule loses exactly one entry when
    [contains] holds for the event, and is unchanged when it does not. *)
Theorem remove_touches_only_its_time (e : Event) (eng : Engine) :
  let eng' := (remove (inl e) eng).2 in
  List.filter (fun x => negb (at_time_of e x)) (queue eng')
  = List.filter (fun x => negb (at_time_of e x)) (queue eng)
  /\ (contains e eng = true -> S (length (queue eng')) = length (queue eng))
  /\ (contains e eng = false -> queue eng' = queue eng)
  /\ current_time eng' = current_time eng
  /\ vessel_location eng' = vessel_location eng
  /\ calls eng' = calls eng.
Proof.
  intros eng'. subst eng'. rewrite remove_single.
  rewrite queue_remove_one. split; [apply drop_first_at_other_times|].
  split; [|split; [|apply remove_one_surroundings]].
  - intros Hc. apply contains_true in Hc as (x & Hx & Ht).
    rewrite time_eqb_sym in Ht.
    destruct (drop_first_at_split (time e) (queue eng)) as (l1 & y & l2 & -> & -> & _);
      [eauto|].
    rewrite !length_app. simpl. lia.
  - intros Hc. apply drop_first_at_none. intros x Hx.
    destruct (time_eqb (EventItem_time x) (time e)) eqn:E; [|reflexivity].
    assert (contains e eng = true); [|congruence].
    apply contains_true. exists x. split; [assumption|]. now rewrite time_eqb_sym.
Qed.

Lemma remove_touches_only_its_time_witness :
  let a := new_Event (Fin 1) None in
  let b := new_Event (Fin 2) None in
  let missing := new_Event (Fin 9) None in
  exists eng,
    put_each [a; b] initial_engine = (Returns tt, eng)
    /\ contains a eng = true /\ contains missing eng = false
    /\ S (length (queue (remove (inl a) eng).2)) = length (queue eng)
    /\ queue (remove (inl missing) eng).2 = queue eng.
Proof.
  intros a b missing. eexists. split; [vm_compute; reflexivity|].
  split; [reflexivity|]. split; [reflexivity|].
  match goal with |- S (length (queue (remove _ ?g).2)) = _ /\ _ =>
    destruct (remove_touches_only_its_time a g) as (_ & Hyes & _);
    destruct (remove_touches_only_its_time missing g) as (_ & _ & Hno & _) end.
  split; [apply Hyes; reflexivity|apply Hno; reflexivity].
Defined.



(** ** What purging keeps *)

Lemma purge_without_time_clash_witness :
  let v := {| vessel_id := 1; vessel_name := "v" |} in
  let w := {| vessel_id := 2; vessel_name := "w" |} in
  let of_v := E_Idle (Fin 5) None (Fin 0) v (Port "A") in
  let of_w := E_Idle (Fin 3) None (Fin 0) w (Port "B") in
  let plain := new_Event (Fin 4) None in
  exists eng,
    put_each [of_v; of_w; plain] initial_engine = (Returns tt, eng)
    /\ EventItem_event <$> queue eng = [of_w; of_v; plain]
    /\ (purge v eng).1 = Returns tt
    /\ EventItem_event <$> queue (purge v eng).2 = [of_w; plain].
Proof.
  intros v w of_v of_w plain. eexists. split; [vm_compute; reflexivity|].
  split; [reflexivity|].
  match goal with |- context [purge v ?g] =>
    destruct (purge_without_time_clash v g) as [Hret ->] end.
  5: { rewrite Hret. split; reflexivity. }
  - repeat constructor; discriminate.
  - repeat constructor.
  - intros x Hx Hbx.
    repeat (apply elem_of_cons in Hx as [->|Hx]); try (now inversion Hx);
      try discriminate Hbx.
    reflexivity.
  - intros x y Hx Hy Hbx Hxy.
    repeat (apply elem_of_cons in Hx as [->|Hx]); try (now inversion Hx);
      try discriminate Hbx.
    repeat (apply elem_of_cons in Hy as [->|Hy]); try (now inversion Hy);
      try discriminate Hxy.
    reflexivity.
Defined.

Lemma filter_partition_perm {A} (f : A -> bool) l :
  l ≡ₚ List.filter f l ++ List.filter (fun x => negb (f x)) l.
Proof.
  induction l as [|x l IH]; simpl; [reflexivity|].
  destruct (f x); simpl.
  - now constructor.
  - rewrite <- Permutation_middle. now constructor.
Qed.

Lemma log_remove_one_found e eng :
  printable eng e ->
  (exists x, x ∈ queue eng /\ at_time_of e x = true) ->
  log (remove_one e eng).2
  = log eng ++ [{| level := DEBUG;
                   message := Removed_event_from_queue
                                {| EventItem_time := time e; EventItem_event := e |} |}].
Proof.
  unfold printable. intros Hp (x & Hx & Ht). unfold remove_one.
  destruct (list_remove EventItem_eq (queue eng) _) as [q|] eqn:Hr.
  { cbv zeta. change (repr_raises (set_queue q eng) e) with (repr_raises eng e).
    now rewrite Hp. }
  pose proof (proj1 (list_remove_None _ _ _) Hr x Hx) as Hf.
  unfold at_time_of in Ht. unfold EventItem_eq in Hf. simpl in Hf. congruence.
Qed.

Lemma remove_each_times es : forall eng rest,
  Forall (fun e => comparable (time e)) es ->
  Forall (printable eng) es ->
  EventItem_time <$> queue eng ≡ₚ (time <$> es) ++ rest ->
  let eng' := foldl (fun eng one_event => (remove_one one_event eng).2) eng es in
  EventItem_time <$> queue eng' ≡ₚ rest
  /\ log eng'
     = log eng ++
       ((fun e => {| level := DEBUG;
                     message := Removed_event_from_queue
                                  {| EventItem_time := time e;
                                     EventItem_event := e |} |}) <$> es).
Proof.
  induction es as [|e es IH]; intros eng rest Hcmp Hpr Hperm; cbn [foldl fmap list_fmap].
  - split; [exact Hperm|now rewrite app_nil_r].
  - apply Forall_cons in Hcmp as [He Hcmp]. apply Forall_cons in Hpr as [Hpe Hpr].
    assert (Hin : time e ∈ EventItem_time <$> queue eng)
      by (rewrite Hperm; now left).
    apply list_elem_of_fmap in Hin as (x & Hxt & Hx).
    assert (Hat : at_time_of e x = true).
    { unfold at_time_of. rewrite <- Hxt. now apply time_eqb_refl. }
    destruct (drop_first_at_split (time e) (queue eng)) as (l1 & y & l2 & Hq & Hd & Hy);
      [eauto|].
    apply time_eqb_eq in Hy.
    destruct (IH (remove_one e eng).2 rest Hcmp) as (Ht & Hl).
    { eapply Forall_impl; [exact Hpr|]. intros e'.
      apply printable_formatter, remove_one_formatter. }
    { rewrite queue_remove_one, Hd.
      rewrite Hq, !fmap_app, fmap_cons, Hy in Hperm. simpl in Hperm.
      rewrite <- Permutation_middle in Hperm.
      apply Permutation_cons_inv in Hperm. now rewrite fmap_app. }
    split; [exact Ht|].
    rewrite Hl, (log_remove_one_found e eng Hpe) by eauto.
    now rewrite <- app_assoc.
Qed.

(** X9: on a schedule whose items are keyed by their events' times, none
    of them NaN, [purge] of a vessel deletes as many entries as the vessel
    has in the schedule, one at each of their times: the times that remain
    are those of the entries of the other vessels and of no vessel.  Every
    deletion finds an entry, so the log gains one debug record for each and
    no warning.  (The log messages for the vessel's events are taken to be
    ones that can be formatted, as they were when [put] logged these events;
    [purge] then returns.) *)
Theorem purge_keeps_the_times_of_the_others (v : Vessel) (eng : Engine) :
  Forall item_ok (queue eng) -> Forall keyed (queue eng) ->
  (forall x, x ∈ queue eng -> bound_to v x = true ->
     printable eng (EventItem_event x)) ->
  let eng' := (purge v eng).2 in
  let others := List.filter (fun x => negb (bound_to v x)) (queue eng) in
  (purge v eng).1 = Returns tt
  /\ EventItem_time <$> queue eng' ≡ₚ EventItem_time <$> others
  /\ length (queue eng') = length others
  /\ exists records,
       log eng' = log eng ++ records
       /\ length records = length (List.filter (bound_to v) (queue eng))
       /\ Forall (fun r => level r = DEBUG) records.
Proof.
  intros Hok Hkey Hprint eng' others.
  subst eng'. rewrite (purge_returns v eng Hprint). cbn [fst snd].
  split; [reflexivity|].
  pose proof (bound_to_printable v eng Hprint) as Hpr. revert Hpr.
  set (mine := List.filter (bound_to v) (queue eng)).
  assert (Hsub : forall x, x ∈ mine -> x ∈ queue eng).
  { intros x Hx. apply list_elem_of_In, List.filter_In in Hx as [Hx _].
    now apply list_elem_of_In. }
  assert (Htimes : time <$> (EventItem_event <$> mine) = EventItem_time <$> mine).
  { rewrite <- list_fmap_compose. apply list_fmap_ext. intros i x Hx. simpl. symmetry.
    apply list_elem_of_lookup_2 in Hx.
    exact (proj1 (Forall_forall _ _) Hkey x (Hsub x Hx)). }
  intros Hpr.
  destruct (remove_each_times (EventItem_event <$> mine) eng (EventItem_time <$> others))
    as (Ht & Hl).
  - apply Forall_fmap, Forall_forall. intros x Hx. simpl.
    rewrite <- (proj1 (Forall_forall _ _) Hkey x (Hsub x Hx)).
    exact (proj1 (Forall_forall _ _) Hok x (Hsub x Hx)).
  - exact Hpr.
  - rewrite Htimes, <- fmap_app. apply fmap_Permutation, filter_partition_perm.
  - split; [exact Ht|]. split.
    + apply Permutation_length in Ht. now rewrite !length_fmap in Ht.
    + eexists. split; [exact Hl|]. split; [now rewrite !length_fmap|].
      apply Forall_fmap, Forall_forall. intros x _. reflexivity.
Qed.

Lemma purge_keeps_the_times_of_the_others_witness :
  let v := {| vessel_id := 1; vessel_name := "v" |} in
  let w := {| vessel_id := 2; vessel_name := "w" |} in
  let of_v := E_Idle (Fin 5) None (Fin 0) v (Port "A") in
  let of_w := E_Idle (Fin 5) None (Fin 0) w (Port "B") in
  exists eng,
    put_each [of_w; of_v] initial_engine = (Returns tt, eng)
    /\ Forall item_ok (queue eng) /\ Forall keyed (queue eng)
    /\ (forall x, x ∈ queue eng -> bound_to v x = true ->
          printable eng (EventItem_event x))
    /\ (purge v eng).1 = Returns tt
    /\ EventItem_time <$> queue (purge v eng).2 ≡ₚ [Fin 5]
    /\ length (queue (purge v eng).2) = 1.
Proof.
  intros v w of_v of_w. eexists. split; [vm_compute; reflexivity|].
  match goal with |- Forall item_ok (queue ?g) /\ _ =>
    assert (Hok : Forall item_ok (queue g)) by (repeat constructor; discriminate);
    assert (Hkey : Forall keyed (queue g)) by (repeat constructor);
    assert (Hpr : forall x, x ∈ queue g -> bound_to v x = true ->
                    printable g (EventItem_event x))
  end.
  { intros x Hx _.
    repeat (apply elem_of_cons in Hx as [->|Hx]); try (now inversion Hx);
      reflexivity. }
  match goal with |- Forall item_ok (queue ?g) /\ _ =>
    destruct (purge_keeps_the_times_of_the_others v g Hok Hkey Hpr)
      as (Hret & Ht & Hlen & _)
  end.
  split; [exact Hok|]. split; [exact Hkey|]. split; [exact Hpr|].
  split; [exact Hret|]. split; [exact Ht|exact Hlen].
Defined.

(** ** Equality of events, further *)

Lemma time_eqb_comparable a b : time_eqb a b = true -> comparable a /\ comparable b.
Proof. destruct a, b; simpl; try discriminate; split; discriminate. Qed.

(** X10: events that compare equal have equal times, whatever their classes;
    an event whose time is NaN is equal to no event, and an event is equal
    to itself exactly when its time is not NaN. *)
Theorem equal_events_have_equal_times :
  (forall a b, event_eqb a b = true -> time_eqb (time a) (time b) = true)
  /\ (forall a b, time a = NaN \/ time b = NaN -> event_eqb a b = false)
  /\ (forall a, event_eqb a a = true <-> comparable (time a)).
Proof.
  assert (H1 : forall a b, event_eqb a b = true -> time_eqb (time a) (time b) = true).
  { intros a b. destruct a, b; unfold event_eqb; simpl;
      unfold IdleEvent_eq, ArrivalEvent_eq, CargoTransferEvent_eq,
        VesselCargoEvent_eq, VesselEvent_eq, Event_eq; simpl;
      rewrite ?andb_false_r, ?andb_true_r, ?andb_true_iff;
      intros H; destruct_and?; try discriminate; try assumption;
      rewrite time_eqb_sym; assumption. }
  split; [exact H1|]. split.
  - intros a b Hnan. destruct (event_eqb a b) eqn:E; [|reflexivity].
    apply H1, time_eqb_comparable in E as [Ha Hb].
    destruct Hnan; contradiction.
  - intros a. rewrite event_eqb_same_class by reflexivity. split.
    + intros [H _]. now apply time_eqb_comparable in H.
    + intros H. split; [now apply time_eqb_refl|reflexivity].
Qed.

Lemma equal_events_have_equal_times_witness :
  let v := {| vessel_id := 1; vessel_name := "v" |} in
  let e := E_Idle NaN None unstarted v (Port "A") in
  time e = NaN /\ event_eqb e e = false
  /\ event_eqb (new_Event (Fin 1) None) (new_Event (Fin 1) None) = true.
Proof.
  intros v e.
  destruct equal_events_have_equal_times as (_ & Hnan & Hrefl).
  split; [reflexivity|]. split; [apply Hnan; now left|].
  apply Hrefl. discriminate.
Defined.

(** X11: among the events of one class, equality is symmetric and
    transitive. *)
Theorem equality_within_a_class (a b c : Event) :
  class_of a = class_of b -> class_of b = class_of c ->
  event_eqb a b = event_eqb b a
  /\ (event_eqb a b = true -> event_eqb b c = true -> event_eqb a c = true).
Proof.
  intros Hab Hbc. split.
  - destruct (event_eqb a b) eqn:E1, (event_eqb b a) eqn:E2; try reflexivity.
    + apply event_eqb_same_class in E1 as [Ht Hc]; [|assumption].
      assert (event_eqb b a = true); [|congruence].
      apply event_eqb_same_class; [congruence|]. rewrite time_eqb_sym. auto.
    + apply event_eqb_same_class in E2 as [Ht Hc]; [|congruence].
      assert (event_eqb a b = true); [|congruence].
      apply event_eqb_same_class; [congruence|]. rewrite time_eqb_sym. auto.
  - intros E1 E2.
    apply event_eqb_same_class in E1 as [Ht1 Hc1]; [|assumption].
    apply event_eqb_same_class in E2 as [Ht2 Hc2]; [|assumption].
    apply event_eqb_same_class; [congruence|]. split; [|congruence].
    apply time_eqb_eq in Ht1. now rewrite Ht1.
Qed.

Lemma equality_within_a_class_witness :
  let v := {| vessel_id := 1; vessel_name := "v" |} in
  let w := {| vessel_id := 2; vessel_name := "w" |} in
  let tr := {| origin_port := Port "A"; destination_port := Port "B";
               cargo_type := "X"; amount := 100%Z;
               time_window := {| tw0 := None; tw1 := None;
                                 tw2 := None; tw3 := None |} |} in
  let a := E_Arrival (Fin 5) (Some "a") (Fin 0) v tr true in
  let b := E_Arrival (Fin 5) (Some "b") (Fin 1) w tr true in
  let c := E_Arrival (Fin 5) None (Fin 2) v tr true in
  class_of a = class_of b /\ class_of b = class_of c
  /\ event_eqb a b = true /\ event_eqb b c = true /\ event_eqb a c = true.
Proof.
  intros v w tr a b c.
  destruct (equality_within_a_class a b c eq_refl eq_refl) as (_ & Htrans).
  do 4 (split; [reflexivity|]). apply Htrans; reflexivity.
Defined.

(** X12: an arrival event and a cargo transfer event are never equal, in
    either order, even when time, trade, pickup flag and vessel agree. *)
Theorem arrival_never_equals_transfer (a b : Event) :
  class_of a = CArrivalEvent -> class_of b = CCargoTransferEvent ->
  event_eqb a b = false /\ event_eqb b a = false.
Proof.
  intros Ha Hb. destruct a; try discriminate Ha. destruct b; try discriminate Hb.
  unfold event_eqb. simpl.
  unfold ArrivalEvent_eq, CargoTransferEvent_eq. simpl.
  now rewrite !andb_false_r.
Qed.

Lemma arrival_never_equals_transfer_witness :
  let v := {| vessel_id := 1; vessel_name := "v" |} in
  let tr := {| origin_port := Port "A"; destination_port := Port "B";
               cargo_type := "X"; amount := 100%Z;
               time_window := {| tw0 := None; tw1 := None;
                                 tw2 := None; tw3 := None |} |} in
  let a := E_Arrival (Fin 5) None (Fin 0) v tr true in
  let b := E_CargoTransfer (Fin 5) None (Fin 0) v tr true in
  class_of a = CArrivalEvent /\ class_of b = CCargoTransferEvent
  /\ event_eqb a b = false /\ event_eqb b a = false.
Proof.
  intros v tr a b. split; [reflexivity|]. split; [reflexivity|].
  apply (arrival_never_equals_transfer a b); reflexivity.
Defined.

(** X13: equality is not symmetric across classes.  A travel event or a
    vessel location information event, which inherit [VesselEvent.__eq__],
    compares equal to an idle, arrival or cargo transfer event of the same
    time, info label and vessel, while that event, whose class overrides
    [__eq__] and tests for its own class, compares unequal to it. *)
Theorem equality_is_not_symmetric_across_classes (a b : Event) :
  class_of a = CTravelEvent \/ class_of a = CVesselLocationInformationEvent ->
  class_of b = CIdleEvent \/ class_of b = CArrivalEvent
    \/ class_of b = CCargoTransferEvent ->
  time_eqb (time a) (time b) = true -> info a = info b -> vessel a = vessel b ->
  event_eqb a b = true /\ event_eqb b a = false.
Proof.
  intros Ha Hb Ht Hi Hv.
  destruct a; simpl in Ha; try (now destruct Ha);
    destruct b; simpl in Hb; try (now destruct Hb as [|[|]]);
    simpl in Ht, Hi, Hv; unfold event_eqb; simpl;
    unfold IdleEvent_eq, ArrivalEvent_eq, CargoTransferEvent_eq,
      VesselCargoEvent_eq, VesselEvent_eq, Event_eq; simpl;
    rewrite Ht, Hi, Hv, !bool_decide_eq_true_2 by reflexivity; split; reflexivity.
Qed.

Lemma equality_is_not_symmetric_across_classes_witness :
  let v := {| vessel_id := 1; vessel_name := "v" |} in
  let a := E_Travel (Fin 5) (Some "x") (Fin 0) v (Port "A") (Port "B") false in
  let b := E_Idle (Fin 5) (Some "x") (Fin 0) v (Port "B") in
  time_eqb (time a) (time b) = true /\ info a = info b /\ vessel a = vessel b
  /\ event_eqb a b = true /\ event_eqb b a = false.
Proof.
  intros v a b. do 3 (split; [reflexivity|]).
  apply (equality_is_not_symmetric_across_classes a b); auto.
Defined.

(** ** Execution, further *)

Lemma before_bound_None t bound :
  before_bound t bound = None
  <-> ~ exists b, bound = Some b /\ time_ltb t b = true.
Proof.
  split.
  - intros H (b & Hb). apply before_bound_Some in Hb. congruence.
  - intros H. destruct (before_bound t bound) as [b|] eqn:E; [|reflexivity].
    apply before_bound_Some in E. exfalso. eauto.
Qed.

Lemma after_bound_None t bound :
  after_bound t bound = None
  <-> ~ exists b, bound = Some b /\ time_gtb t b = true.
Proof.
  split.
  - intros H (b & Hb). apply after_bound_Some in Hb. congruence.
  - intros H. destruct (after_bound t bound) as [b|] eqn:E; [|reflexivity].
    apply after_bound_Some in E. exfalso. eauto.
Qed.

Lemma app_singleton_neq {A} (l : list A) x : l ++ [x] <> l.
Proof.
  intros H. apply (f_equal length) in H. rewrite length_app in H. simpl in H. lia.
Qed.

(** X14: an arrival event always executes to the end: whatever the window,
    it returns, tells the vessel of the occurrence, and puts the vessel at
    the event's location.  It leaves the log as it was exactly when its time
    violates no applicable bound; and a pickup that is both before the
    earliest and after the latest pickup time is reported as before the
    earliest only. *)
Theorem arrival_logs_exactly_on_violation (fmt : Formats) (t : Time)
    (i : option string) (s : Time) (v : Vessel) (tr : Trade) (p : bool)
    (eng : Engine) :
  let self := E_Arrival t i s v tr p in
  exists eng',
    event_action fmt self eng = (Returns NoData, (self, eng'))
    /\ vessel_location eng' !! vessel_id v = location self
    /\ calls eng' = calls eng ++ [vessel_event_occurrence v self]
    /\ (log eng' = log eng <-> ~ violates t p (time_window tr))
    /\ (forall b b', p = true -> tw0 (time_window tr) = Some b ->
          tw1 (time_window tr) = Some b' ->
          time_ltb t b = true -> time_gtb t b' = true ->
          log eng' = log eng ++
            [{| level := ERROR;
                message := loading_before_earliest_start
                             (company_name (find_company_for_vessel eng v)) t b |}]).
Proof.
  intros self. exists (ArrivalEvent_event_action self eng).
  split; [reflexivity|].
  unfold ArrivalEvent_event_action, VesselEvent_event_action.
  cbn -[before_bound after_bound]. unfold violates.
  destruct p.
  - destruct (before_bound t (tw0 (time_window tr))) as [b|] eqn:Hb.
    + cbn. rewrite lookup_insert_eq. do 2 (split; [reflexivity|]). split.
      * split; [intros H; now apply app_singleton_neq in H|].
        intros H. exfalso. apply H. left. exists b. now apply before_bound_Some.
      * intros b0 b' _ H0 _ _ _. apply before_bound_Some in Hb as [Hb _].
        rewrite H0 in Hb. now injection Hb as ->.
    + destruct (after_bound t (tw1 (time_window tr))) as [b|] eqn:Ha.
      * cbn. rewrite lookup_insert_eq. do 2 (split; [reflexivity|]). split.
        -- split; [intros H; now apply app_singleton_neq in H|].
           intros H. exfalso. apply H. right. exists b. now apply after_bound_Some.
        -- intros b0 b' _ H0 _ Hlt _. exfalso.
           apply (proj1 (before_bound_None _ _) Hb). eauto.
      * cbn. rewrite lookup_insert_eq. do 2 (split; [reflexivity|]). split.
        -- split; [|reflexivity]. intros _ [H|H].
           ++ now apply (proj1 (before_bound_None _ _) Hb).
           ++ now apply (proj1 (after_bound_None _ _) Ha).
        -- intros b0 b' _ H0 _ Hlt _. exfalso.
           apply (proj1 (before_bound_None _ _) Hb). eauto.
  - destruct (before_bound t (tw2 (time_window tr))) as [b|] eqn:Hb.
    + cbn. rewrite lookup_insert_eq. do 2 (split; [reflexivity|]). split.
      * split; [intros H; now apply app_singleton_neq in H|].
        intros H. exfalso. apply H. left. exists b. now apply before_bound_Some.
      * intros b0 b' Hp. discriminate Hp.
    + destruct (after_bound t (tw3 (time_window tr))) as [b|] eqn:Ha.
      * cbn. rewrite lookup_insert_eq. do 2 (split; [reflexivity|]). split.
        -- split; [intros H; now apply app_singleton_neq in H|].
           intros H. exfalso. apply H. right. exists b. now apply after_bound_Some.
        -- intros b0 b' Hp. discriminate Hp.
      * cbn. rewrite lookup_insert_eq. do 2 (split; [reflexivity|]). split.
        -- split; [|reflexivity]. intros _ [H|H].
           ++ now apply (proj1 (before_bound_None _ _) Hb).
           ++ now apply (proj1 (after_bound_None _ _) Ha).
        -- intros b0 b' Hp. discriminate Hp.
Qed.

Lemma arrival_logs_exactly_on_violation_witness :
  let fmt := {| str_location := fun _ => "loc"; location_name := fun _ => "loc";
                str_amount := fun _ => "0"; str_len := fun _ => "0";
                str_time := fun _ => "0"; format_time := fun _ => "0" |} in
  let v := {| vessel_id := 1; vessel_name := "v" |} in
  let tr := {| origin_port := Port "A"; destination_port := Port "B";
               cargo_type := "X"; amount := 100%Z;
               time_window := {| tw0 := Some (Fin 5); tw1 := Some (Fin 8);
                                 tw2 := None; tw3 := Some (Fin 20) |} |} in
  let self := E_Arrival (Fin 6) None (Fin 0) v tr true in
  ~ violates (Fin 6) true (time_window tr)
  /\ exists eng',
      event_action fmt self initial_engine = (Returns NoData, (self, eng'))
      /\ log eng' = [].
Proof.
  intros fmt v tr self.
  assert (Hok : ~ violates (Fin 6) true (time_window tr)).
  { intros [(b & Hb & Hlt)|(b & Hb & Hgt)]; simpl in Hb; injection Hb as <-;
      discriminate. }
  split; [exact Hok|].
  destruct (arrival_logs_exactly_on_violation fmt (Fin 6) None (Fin 0) v tr true
              initial_engine) as (eng' & Hrun & _ & _ & Hlog & _).
  exists eng'. split; [exact Hrun|]. now apply Hlog.
Defined.



(** X20: a cargo transfer at pickup followed by the cargo transfer at
    drop-off of the same trade, on the same vessel, makes four calls on the
    vessel, in this order: the occurrence of the pickup, [load_cargo], the
    occurrence of the drop-off, [unload_cargo], the last with the cargo type
    and the amount of the load; the vessel is left at the origin port by the
    first and at the destination port by the second; neither touches the
    schedule or the log. *)
Theorem cargo_transfer_pickup_then_drop_off (fmt : Formats) (t1 t2 : Time)
    (i1 i2 : option string) (s1 s2 : Time) (v : Vessel) (tr : Trade) (eng : Engine) :
  let pickup := E_CargoTransfer t1 i1 s1 v tr true in
  let drop_off := E_CargoTransfer t2 i2 s2 v tr false in
  exists eng1 eng2,
    event_action fmt pickup eng = (Returns NoData, (pickup, eng1))
    /\ event_action fmt drop_off eng1 = (Returns NoData, (drop_off, eng2))
    /\ vessel_location eng1 !! vessel_id v = Some (origin_port tr)
    /\ vessel_location eng2 !! vessel_id v = Some (destination_port tr)
    /\ calls eng2
       = calls eng ++
         [vessel_event_occurrence v pickup;
          vessel_load_cargo v (cargo_type tr) (amount tr);
          vessel_event_occurrence v drop_off;
          vessel_unload_cargo v (cargo_type tr) (amount tr)]
    /\ queue eng2 = queue eng
    /\ log eng2 = log eng.
Proof.
  intros pickup drop_off. eexists. eexists.
  split; [reflexivity|]. split; [reflexivity|].
  split; [cbn; apply lookup_insert_eq|]. split; [cbn; apply lookup_insert_eq|].
  split; [cbn; now rewrite <- !app_assoc|]. split; reflexivity.
Qed.

(** ** Execution and the schedule *)

Lemma put_queue_grows e block timeout eng :
  exists added,
    queue (put e block timeout eng).2.2 ≡ₚ added ++ queue eng
    /\ (time e = PInf -> added = [])
    /\ current_time (put e block timeout eng).2.2 = current_time eng
    /\ generate_event_cargo (put e block timeout eng).2.2 = generate_event_cargo eng.
Proof.
  destruct (decide (time e = PInf)) as [Hinf|Hinf].
  - exists []. unfold put. rewrite Hinf. simpl.
    split; [reflexivity|]. split; [reflexivity|]. split; reflexivity.
  - destruct (put_total e block timeout eng Hinf)
      as (eng' & Hput & (Hc & _ & _ & _ & Hg) & Hperm).
    exists [item_of eng e]. rewrite Hput. simpl.
    split; [exact Hperm|]. split; [intros; contradiction|]. split; assumption.
Qed.

Lemma ArrivalEvent_event_action_frame self eng :
  queue (ArrivalEvent_event_action self eng) = queue eng
  /\ current_time (ArrivalEvent_event_action self eng) = current_time eng.
Proof.
  unfold ArrivalEvent_event_action, VesselEvent_event_action.
  destruct self as [| | | | | | | |tm inf ts vs trd pk|];
    cbn -[before_bound after_bound]; auto.
  destruct pk; destruct (before_bound tm _); try destruct (after_bound tm _);
    split; reflexivity.
Qed.

(** X16: executing an event never takes an entry out of the schedule and
    never moves the clock.  The events of every class but the two
    announcement classes return and leave the schedule exactly as it was;
    an announcement event leaves it with the entries it had and those it
    inserted. *)
Theorem execution_never_removes_entries (fmt : Formats) (self : Event)
    (eng : Engine) :
  let eng' := (event_action fmt self eng).2.2 in
  (exists added, queue eng' ≡ₚ added ++ queue eng)
  /\ current_time eng' = current_time eng
  /\ (class_of self <> CFirstCargoAnnouncementEvent ->
      class_of self <> CCargoAnnouncementEvent ->
      queue eng' = queue eng
      /\ exists data, (event_action fmt self eng).1 = Returns data).
Proof.
  intros eng'. subst eng'.
  destruct self as [| t0 i0 t2 | t0 i0 t1 | | | | | | tm inf ts vs trd pk
                    | tm inf ts vs trd pk];
    cbn [event_action class_of].
  - split; [exists []; reflexivity|]. split; [reflexivity|]. eauto.
  - unfold FirstCargoAnnouncementEvent_event_action.
    set (eng0 := add_call _ (add_call _ eng)).
    destruct (format_time_raises eng0 t2);
      [cbn [fst snd]; split; [exists []; reflexivity|]; split; [reflexivity|];
       intros H; now destruct H|].
    destruct (put_queue_grows (generate_event_cargo eng0 (Fin 0)) true None eng0)
      as (added1 & Hq1 & _ & Hc1 & Hg1).
    destruct (put (generate_event_cargo eng0 (Fin 0)) true None eng0)
      as [r1 [e1 eng1]]. cbn [fst snd] in *.
    destruct r1 as [[]|x|].
    + destruct (put_queue_grows (generate_event_cargo eng1 t2) true None eng1)
        as (added2 & Hq2 & _ & Hc2 & _).
      destruct (put (generate_event_cargo eng1 t2) true None eng1)
        as [r2 [e2 eng2]]. cbn [fst snd] in *.
      assert (Hq : queue eng2 ≡ₚ (added2 ++ added1) ++ queue eng)
        by (rewrite Hq2, Hq1; now rewrite app_assoc).
      assert (Hc : current_time eng2 = current_time eng)
        by (rewrite Hc2, Hc1; reflexivity).
      destruct r2 as [[]|x|]; cbn [fst snd];
        (split; [eauto|]); (split; [exact Hc|]); intros H; now destruct H.
    + cbn [fst snd]. split; [eauto|]. split; [exact Hc1|]. intros H; now destruct H.
    + cbn [fst snd]. split; [eauto|]. split; [exact Hc1|]. intros H; now destruct H.
  - unfold CargoAnnouncementEvent_event_action.
    set (eng0 := add_call _ (add_call _ eng)).
    destruct (format_time_raises eng0 t1);
      [cbn [fst snd]; split; [exists []; reflexivity|]; split; [reflexivity|];
       intros _ H; now destruct H|].
    destruct (put_queue_grows (generate_event_cargo eng0 t1)
                true None eng0) as (added1 & Hq1 & _ & Hc1 & _).
    destruct (put (generate_event_cargo eng0 t1) true None eng0)
      as [r1 [e1 eng1]]. cbn [fst snd] in *.
    destruct r1 as [[]|x|]; cbn [fst snd];
      (split; [eauto|]); (split; [exact Hc1|]); intros _ H; now destruct H.
  - split; [exists []; reflexivity|]. split; [reflexivity|]. eauto.
  - split; [exists []; reflexivity|]. split; [reflexivity|]. eauto.
  - split; [exists []; reflexivity|]. split; [reflexivity|]. eauto.
  - split; [exists []; reflexivity|]. split; [reflexivity|]. eauto.
  - split; [exists []; reflexivity|]. split; [reflexivity|]. eauto.
  - cbn [fst snd].
    destruct (ArrivalEvent_event_action_frame (E_Arrival tm inf ts vs trd pk) eng)
      as [Hq Hc].
    split; [exists []; now rewrite Hq|]. split; [exact Hc|]. eauto.
  - split; [exists []; cbn; now destruct pk|]. split; [cbn; now destruct pk|].
    intros _ _. split; [cbn; now destruct pk|]. eauto.
Qed.

Lemma execution_never_removes_entries_witness :
  let fmt := {| str_location := fun _ => "loc"; location_name := fun _ => "loc";
                str_amount := fun _ => "0"; str_len := fun _ => "0";
                str_time := fun _ => "0"; format_time := fun _ => "0" |} in
  let a := new_Event (Fin 3) None in
  let self := CargoEvent (Fin 1) in
  exists eng,
    put_each [a] initial_engine = (Returns tt, eng)
    /\ class_of self <> CFirstCargoAnnouncementEvent
    /\ class_of self <> CCargoAnnouncementEvent
    /\ queue (event_action fmt self eng).2.2 = queue eng.
Proof.
  intros fmt a self. eexists. split; [vm_compute; reflexivity|].
  split; [discriminate|]. split; [discriminate|].
  match goal with |- queue (event_action fmt self ?g).2.2 = _ =>
    destruct (execution_never_removes_entries fmt self g) as (_ & _ & H) end.
  apply H; discriminate.
Defined.



(** X18: the announcement events keep the invariant of the schedule.  When
    the schedule is heap-ordered and keyed, with no time NaN, and the events
    the class factory builds have times that are neither NaN nor +infinity,
    the schedule is heap-ordered and keyed after the execution as well, so
    that the following extractions still come in order of time. *)
Theorem announcements_keep_the_heap_order (fmt : Formats) (t : Time)
    (i : option string) (t' : Time) (eng : Engine) :
  wf_queue (queue eng) ->
  insertable (generate_event_cargo eng t') ->
  wf_queue (queue (event_action fmt (E_CargoAnnouncement t i t') eng).2.2)
  /\ (insertable (generate_event_cargo eng (Fin 0)) ->
      wf_queue (queue (event_action fmt (E_FirstCargoAnnouncement t i t') eng).2.2)).
Proof.
  intros Hwf [Hcmp Hinf]. split.
  - cbn [event_action]. unfold CargoAnnouncementEvent_event_action.
    set (eng0 := add_call _ (add_call _ eng)).
    destruct (format_time_raises eng0 t'); [exact Hwf|].
    destruct (put_spec (generate_event_cargo eng0 t') true None eng0 Hwf Hcmp Hinf)
      as (eng1 & Hput & _ & Hwf1 & _).
    rewrite Hput. exact Hwf1.
  - intros [Hcmp0 Hinf0]. cbn [event_action].
    unfold FirstCargoAnnouncementEvent_event_action.
    set (eng0 := add_call _ (add_call _ eng)).
    destruct (format_time_raises eng0 t'); [exact Hwf|].
    destruct (put_spec (generate_event_cargo eng0 (Fin 0)) true None eng0 Hwf Hcmp0 Hinf0)
      as (eng1 & Hput1 & _ & Hwf1 & _).
    destruct (put_total (generate_event_cargo eng0 (Fin 0)) true None eng0 Hinf0)
      as (eng1' & Hput1' & (_ & _ & _ & _ & Hgen1) & _).
    assert (eng1' = eng1) as -> by congruence.
    rewrite Hput1.
    assert (Hcmp1 : comparable (time (generate_event_cargo eng1 t')))
      by now rewrite Hgen1.
    assert (Hinf1 : time (generate_event_cargo eng1 t') <> PInf)
      by now rewrite Hgen1.
    destruct (put_spec (generate_event_cargo eng1 t') true None eng1 Hwf1 Hcmp1 Hinf1)
      as (eng2 & Hput2 & _ & Hwf2 & _).
    rewrite Hput2. exact Hwf2.
Qed.

Lemma announcements_keep_the_heap_order_witness :
  let fmt := {| str_location := fun _ => "loc"; location_name := fun _ => "loc";
                str_amount := fun _ => "0"; str_len := fun _ => "0";
                str_time := fun _ => "0"; format_time := fun _ => "0" |} in
  wf_queue (queue initial_engine)
  /\ insertable (generate_event_cargo initial_engine (Fin 7))
  /\ wf_queue (queue (event_action fmt (FirstCargoAnnouncementEvent (Fin 0) (Fin 7))
                        initial_engine).2.2).
Proof.
  intros fmt.
  assert (Hwf : wf_queue (queue initial_engine)) by apply wf_queue_nil.
  assert (H7 : insertable (generate_event_cargo initial_engine (Fin 7)))
    by (split; discriminate).
  split; [exact Hwf|]. split; [exact H7|].
  apply (announcements_keep_the_heap_order fmt (Fin 0) None (Fin 7) initial_engine Hwf H7).
  split; discriminate.
Defined.

(** ** Durations, further *)

(** X19: after the hook has run at a clock [T0 >= 0] on a duration event of
    a finite time [t >= 0], the duration performed is [max(0, t - T0)]: the
    time left until the event, and 0 for an event that is already due. *)
Theorem performed_time_after_insertion (e : Event) (eng : Engine) (t T0 : Z) :
  isinstance e CDurationEvent = true ->
  time e = Fin t -> current_time eng = Fin T0 ->
  (0 <= t)%Z -> (0 <= T0)%Z ->
  performed_time (added_to_queue e eng).1 = Some (Fin (Z.max 0 (t - T0))).
Proof.
  intros Hd Ht HT0 Htpos HT0pos.
  rewrite (added_to_queue_duration e eng Hd). unfold DurationEvent_added_to_queue.
  rewrite Ht, HT0. simpl.
  destruct (t <? T0)%Z eqn:E.
  - apply Z.ltb_lt in E. unfold performed_time, has_started.
    rewrite time_started_set by assumption. simpl.
    rewrite time_set_time_started, Ht. unfold time_geb. simpl.
    destruct (0 <? t)%Z eqn:E1, (t =? 0)%Z eqn:E2; simpl; f_equal; f_equal; lia.
  - apply Z.ltb_ge in E. unfold performed_time, has_started.
    rewrite time_started_set by assumption. simpl.
    rewrite time_set_time_started, Ht. unfold time_geb. simpl.
    destruct (0 <? T0)%Z eqn:E1, (T0 =? 0)%Z eqn:E2; simpl; f_equal; f_equal; lia.
Qed.

Lemma performed_time_after_insertion_witness :
  let v := {| vessel_id := 1; vessel_name := "v" |} in
  let e := E_Idle (Fin 10) None unstarted v (Port "A") in
  isinstance e CDurationEvent = true
  /\ performed_time (added_to_queue e (engine_at (Fin 4))).1 = Some (Fin 6)
  /\ performed_time (added_to_queue e (engine_at (Fin 12))).1 = Some (Fin 0).
Proof.
  intros v e. split; [reflexivity|]. split.
  - apply (performed_time_after_insertion e (engine_at (Fin 4)) 10 4); auto; lia.
  - apply (performed_time_after_insertion e (engine_at (Fin 12)) 10 12); auto; lia.
Defined.

(** ** Removing several events *)

Lemma drop_first_at_comm t1 t2 q :
  drop_first_at t1 (drop_first_at t2 q) = drop_first_at t2 (drop_first_at t1 q).
Proof.
  induction q as [|x q IH]; simpl; [reflexivity|].
  destruct (time_eqb (EventItem_time x) t1) eqn:E1,
           (time_eqb (EventItem_time x) t2) eqn:E2; simpl;
    rewrite ?E1, ?E2; try reflexivity.
  - apply time_eqb_eq in E1, E2. congruence.
  - now rewrite IH.
Qed.

Lemma drop_each_perm ts ts' :
  ts ≡ₚ ts' ->
  forall q, foldl (fun q t => drop_first_at t q) q ts
            = foldl (fun q t => drop_first_at t q) q ts'.
Proof.
  induction 1 as [|t l l' _ IH|t1 t2 l|l1 l2 l3 _ IH1 _ IH2]; intros q; simpl.
  - reflexivity.
  - apply IH.
  - now rewrite drop_first_at_comm.
  - now rewrite IH1.
Qed.

(** X21: for events whose log messages can be formatted, [remove] of a list
    returns, and the schedule it leaves does not depend on the order in
    which the events of the list are given. *)
Theorem remove_in_any_order (es es' : list Event) (eng : Engine) :
  Forall (printable eng) es ->
  es ≡ₚ es' ->
  (remove (inr es) eng).1 = Returns tt
  /\ (remove (inr es') eng).1 = Returns tt
  /\ queue (remove (inr es) eng).2 = queue (remove (inr es') eng).2.
Proof.
  intros Hp Hperm.
  assert (Hp' : Forall (printable eng) es') by now rewrite <- Hperm.
  unfold remove. rewrite !remove_each_returns by assumption. cbn [fst snd].
  split; [reflexivity|]. split; [reflexivity|].
  rewrite !queue_remove_each.
  apply drop_each_perm. now apply fmap_Permutation.
Qed.

Lemma remove_in_any_order_witness :
  let a := new_Event (Fin 1) None in
  let b := new_Event (Fin 2) None in
  let c := new_Event (Fin 3) None in
  exists eng,
    put_each [a; b; c] initial_engine = (Returns tt, eng)
    /\ Forall (printable eng) [a; c]
    /\ [a; c] ≡ₚ [c; a]
    /\ queue (remove (inr [a; c]) eng).2 = queue (remove (inr [c; a]) eng).2
    /\ EventItem_event <$> queue (remove (inr [c; a]) eng).2 = [b].
Proof.
  intros a b c. eexists. split; [vm_compute; reflexivity|].
  assert (Hperm : [a; c] ≡ₚ [c; a]) by apply Permutation_swap.
  match goal with |- Forall (printable ?g) _ /\ _ =>
    assert (Hp : Forall (printable g) [a; c]) by (repeat constructor) end.
  split; [exact Hp|]. split; [exact Hperm|].
  split; [now apply remove_in_any_order|reflexivity].
Defined.

Lemma remove_one_raises e eng x :
  repr_raises eng e = Some x ->
  (remove_one e eng).1 = Raises x /\ log (remove_one e eng).2 = log eng.
Proof.
  intros Hx. unfold remove_one.
  destruct (list_remove _ _ _) as [q|]; cbv zeta;
    [change (repr_raises (set_queue q eng) e) with (repr_raises eng e)|];
    rewrite Hx; split; reflexivity.
Qed.

(** X23: when the log message for an event cannot be formatted, as for an
    event whose time is +infinity, [remove] raises what the formatting
    raises.  It does so after [list.remove] was tried: an entry at the
    event's time is gone all the same, nothing is logged, and the events
    that follow in a list are not looked at.  With such an event in the
    list the order of the list matters. *)
Theorem remove_stops_at_an_unprintable_event (e : Event) (eng : Engine)
    (x : Exception) :
  repr_raises eng e = Some x ->
  exists eng',
    remove (inl e) eng = (Raises x, eng')
    /\ (forall rest, remove (inr (e :: rest)) eng = (Raises x, eng'))
    /\ queue eng' = drop_first_at (time e) (queue eng)
    /\ log eng' = log eng
    /\ calls eng' = calls eng
    /\ vessel_location eng' = vessel_location eng.
Proof.
  intros Hx. destruct (remove_one_raises e eng x Hx) as [Hr Hl].
  pose proof (queue_remove_one e eng) as Hq.
  destruct (remove_one_surroundings e eng) as (_ & Hv & Hc).
  exists (remove_one e eng).2. rewrite remove_single. unfold remove.
  cbn [remove_each].
  destruct (remove_one e eng) as [r eng1]. cbn [fst snd] in *. subst r.
  split; [reflexivity|]. split; [reflexivity|]. auto.
Qed.

Lemma remove_stops_at_an_unprintable_event_witness :
  let never := new_Event PInf None in
  let a := new_Event (Fin 1) None in
  exists eng,
    put_each [a] initial_engine = (Returns tt, eng)
    /\ repr_raises eng never = Some OverflowError
    /\ (remove (inl never) eng).1 = Raises OverflowError
    /\ remove (inr [never; a]) eng = (Raises OverflowError, eng)
    /\ (remove (inr [a; never]) eng).1 = Raises OverflowError
    /\ queue (remove (inr [a; never]) eng).2 = []
    /\ queue (remove (inr [never; a]) eng).2 <> queue (remove (inr [a; never]) eng).2.
Proof.
  intros never a. eexists. split; [vm_compute; reflexivity|].
  split; [reflexivity|].
  match goal with |- (remove _ ?g).1 = _ /\ _ =>
    destruct (remove_stops_at_an_unprintable_event never g OverflowError eq_refl)
      as (eng' & Hone & Hlist & Hq & Hl & _) end.
  rewrite Hone. split; [reflexivity|].
  split; [reflexivity|]. split; [reflexivity|]. split; [reflexivity|].
  rewrite (Hlist [a]). cbn [snd]. rewrite Hq. discriminate.
Defined.

(** ** Where execution leaves the vessel *)

(** X22: executing an event that is bound to a vessel always returns; the
    first call it makes is to tell that vessel of the occurrence; the vessel
    is afterwards at the event's location, or at the destination when the
    event is a travel event; and the location of no other vessel changes. *)
Theorem execution_places_the_vessel (fmt : Formats) (self : Event) (v : Vessel)
    (eng : Engine) :
  vessel self = Some v ->
  exists self' eng' more,
    event_action fmt self eng = (Returns NoData, (self', eng'))
    /\ calls eng' = calls eng ++ vessel_event_occurrence v self :: more
    /\ vessel_location eng' !! vessel_id v
       = match self with
         | E_Travel _ _ _ _ _ destination _ => Some destination
         | _ => location self
         end
    /\ forall id, id <> vessel_id v ->
         vessel_location eng' !! id = vessel_location eng !! id.
Proof.
  intros Hv.
  destruct self as [| | | | | tm inf ts vs l | tm inf ts vs o d b | tm inf ts vs l
                    | tm inf ts vs trd pk | tm inf ts vs trd pk];
    try discriminate Hv; injection Hv as ->; cbn [event_action].
  - eexists _, _, []. split; [reflexivity|]. split; [reflexivity|].
    split; [cbn; apply lookup_insert_eq|].
    intros id Hid. cbn. now apply lookup_insert_ne.
  - eexists _, _, [_]. split; [reflexivity|]. split; [cbn; now rewrite <- app_assoc|].
    split; [cbn; apply lookup_insert_eq|].
    intros id Hid. cbn. rewrite !lookup_insert_ne by congruence. reflexivity.
  - eexists _, _, []. split; [reflexivity|]. split; [reflexivity|].
    split; [cbn; apply lookup_insert_eq|].
    intros id Hid. cbn. now apply lookup_insert_ne.
  - eexists _, _, []. split; [reflexivity|].
    unfold ArrivalEvent_event_action, VesselEvent_event_action.
    cbn -[before_bound after_bound].
    destruct pk; destruct (before_bound tm _); try destruct (after_bound tm _);
      (split; [reflexivity|]); (split; [cbn; apply lookup_insert_eq|]);
      intros id Hid; cbn; now apply lookup_insert_ne.
  - destruct pk; eexists _, _, [_];
      (split; [reflexivity|]); (split; [cbn; now rewrite <- app_assoc|]);
      (split; [cbn; apply lookup_insert_eq|]);
      intros id Hid; cbn; now apply lookup_insert_ne.
Qed.

Lemma execution_places_the_vessel_witness :
  let fmt := {| str_location := fun _ => "loc"; location_name := fun _ => "loc";
                str_amount := fun _ => "0"; str_len := fun _ => "0";
                str_time := fun _ => "0"; format_time := fun _ => "0" |} in
  let v := {| vessel_id := 1; vessel_name := "v" |} in
  let self := E_Idle (Fin 5) None (Fin 0) v (Port "A") in
  vessel self = Some v
  /\ exists self' eng',
      event_action fmt self initial_engine = (Returns NoData, (self', eng'))
      /\ vessel_location eng' !! 1 = Some (Port "A")
      /\ vessel_location eng' !! 2 = None.
Proof.
  intros fmt v self. split; [reflexivity|].
  destruct (execution_places_the_vessel fmt self v initial_engine eq_refl)
    as (self' & eng' & more & Hrun & _ & Hloc & Hother).
  exists self', eng'. split; [exact Hrun|]. split; [exact Hloc|].
  rewrite (Hother 2) by discriminate. reflexivity.
Defined.
